(** * The type model of eslint-plugin-typelint

    A shallow embedding of the module that defines [Type] and its
    subclasses ([AnyType], [PrimitiveType], [AliasType], [UnionType],
    [RecordType], [FunctionType]), the comparison methods [isOfType] and
    [isSupertypeOf], the accessors, and the translation of doctrine tags
    into types ([Type.fromDoctrine], [Type.fromDoctrineType] and the
    per-class [fromDoctrineType] functions). *)

From Stdlib Require Import ZArith List Ascii String Lia.
From stdpp Require Import base option list strings gmap.

Open Scope string_scope.

(** ** Strings

    A character of a Rocq string stands for one UTF-16 code unit of the
    JavaScript string; the model covers the code units below 256.  Of the
    class [\s] these are TAB, LF, VT, FF, CR, SPACE and NO-BREAK SPACE. *)

Definition is_space (c : ascii) : bool :=
  let n := nat_of_ascii c in
  ((9 <=? n)%nat && (n <=? 13)%nat) || (n =? 32)%nat || (n =? 160)%nat.

(** [string.replace(/\s/g, '')] *)
Fixpoint strip (s : string) : string :=
  match s with
  | EmptyString => EmptyString
  | String c rest => if is_space c then strip rest else String c (strip rest)
  end.

(** [array.join(sep)] on an array of strings. *)
Fixpoint join (sep : string) (l : list string) : string :=
  match l with
  | [] => ""
  | [s] => s
  | s :: rest => s ++ sep ++ join sep rest
  end.

(** ** Plain objects used as dictionaries

    [record] and [parameterTypes] are objects created as [{}] and filled
    by assignment.  An object is modelled by its own enumerable
    properties, one entry per key, listed in the order [Object.keys]
    reports them: array-index keys in ascending numeric order first, then
    the other keys in creation order. *)

Module JSObject.

Definition t (A : Type) := list (string * A).

Definition keys {A} (o : t A) : list string := o.*1.

(** An own property: the first entry under that key. *)
Fixpoint own {A} (o : t A) (k : string) : option A :=
  match o with
  | [] => None
  | (k', v) :: rest => if String.eqb k' k then Some v else own rest k
  end.

(** [Object.prototype.hasOwnProperty.call(o, k)] *)
Definition has_own {A} (o : t A) (k : string) : bool :=
  match own o k with Some _ => true | None => false end.

Definition digit (c : ascii) : option N :=
  let n := N_of_ascii c in
  if ((48 <=? n) && (n <=? 57))%N then Some (n - 48)%N else None.

Fixpoint digits (acc : N) (s : string) : option N :=
  match s with
  | EmptyString => Some acc
  | String c rest =>
      match digit c with
      | Some d => digits (10 * acc + d)%N rest
      | None => None
      end
  end.

(** A key is an array index when it is the canonical decimal spelling of
    an integer between 0 and 2^32 - 2. *)
Definition array_index (k : string) : option N :=
  match k with
  | EmptyString => None
  | String c rest =>
      if (Ascii.eqb c "0" && negb (String.eqb rest ""))%bool then None
      else match digits 0 k with
           | Some n => if (n <? 4294967295)%N then Some n else None
           | None => None
           end
  end.

(** Where a new key goes: an array index goes before the first entry
    that is no array index or is a larger one; any other key goes last. *)
Fixpoint add {A} (o : t A) (k : string) (v : A) : t A :=
  match o with
  | [] => [(k, v)]
  | (k', v') :: rest =>
      match array_index k, array_index k' with
      | Some n, Some n' =>
          if (n <? n')%N then (k, v) :: o else (k', v') :: add rest k v
      | Some _, None => (k, v) :: o
      | None, _ => (k', v') :: add rest k v
      end
  end.

Fixpoint replace {A} (o : t A) (k : string) (v : A) : t A :=
  match o with
  | [] => []
  | (k', v') :: rest =>
      if String.eqb k' k then (k', v) :: rest else (k', v') :: replace rest k v
  end.

(** The assignment [o[k] = v] of an object value [v] to an object [o]
    created as [{}].  The key [__proto__] is the accessor inherited from
    [Object.prototype]: assigning an object to it replaces the prototype
    of [o] and creates no own property. *)
Definition set {A} (o : t A) (k : string) (v : A) : t A :=
  if String.eqb k "__proto__" then o
  else if has_own o k then replace o k v
  else add o k v.

End JSObject.

(** [ToPropertyKey] of a tag name that may be [undefined]. *)
Definition to_key (name : option string) : string :=
  match name with
  | Some s => s
  | None => "undefined"
  end.

(** ** The doctrine syntax of declared types *)

(** A node of doctrine's type syntax.  The translator reads the
    discriminator [type], and [name], [elements], [params] and [result]
    of the shapes it knows; [DOther] is a node of any other shape, with
    its discriminator. *)
#[local] Unset Elimination Schemes.
Inductive doctrine_type : Type :=
| DNameExpression (name : string)
| DUndefinedLiteral
| DUnionType (elements : list doctrine_type)
| DRecordType (fields : list (string * option doctrine_type))
| DFunctionType (params : list doctrine_type) (result : option doctrine_type)
| DOther (type : string).
#[local] Set Elimination Schemes.

(** [node.type] *)
Definition discriminator (node : doctrine_type) : string :=
  match node with
  | DNameExpression _ => "NameExpression"
  | DUndefinedLiteral => "UndefinedLiteral"
  | DUnionType _ => "UnionType"
  | DRecordType _ => "RecordType"
  | DFunctionType _ _ => "FunctionType"
  | DOther type => type
  end.

(** The discriminators [Type.fromDoctrineType] has a case for. *)
Definition recognized : list string :=
  ["FunctionType"; "RecordType"; "UnionType"; "NameExpression"; "UndefinedLiteral"].

(** ** Completions *)

Inductive exn : Type :=
| TypeError                          (* raised by the engine *)
| DieUnknownType (node : doctrine_type). (* Error(`Die: Unknown type ...`) *)

Inductive completion (A : Type) : Type :=
| Return (a : A)
| Throw (e : exn).
Arguments Return {A} a.
Arguments Throw {A} e.

Definition cbind {A B} (c : completion A) (k : A -> completion B) : completion B :=
  match c with
  | Return a => k a
  | Throw e => Throw e
  end.

(** A call whose depth is bounded by fuel: [None] when the fuel is used up. *)
Definition M (A : Type) : Type := option (completion A).

Definition ret {A} (a : A) : M A := Some (Return a).
Definition throw {A} (e : exn) : M A := Some (Throw e).
Definition lift {A} (c : completion A) : M A := Some c.

Definition bind {A B} (m : M A) (k : A -> M B) : M B :=
  match m with
  | Some (Return a) => k a
  | Some (Throw e) => Some (Throw e)
  | None => None
  end.

Declare Scope js_scope.
Delimit Scope js_scope with js.
Notation "'let*' x ':=' m 'in' k" := (bind m (fun x => k))
  (at level 10, x name, m at level 100, k at level 200) : js_scope.
Notation "'let+' x ':=' c 'in' k" := (cbind c (fun x => k))
  (at level 10, x name, c at level 100, k at level 200) : js_scope.
Open Scope js_scope.

(** [for (const x of l) { if (!f(x)) return false; } return true;] *)
Fixpoint every (A : Type) (f : A -> M bool) (l : list A) : M bool :=
  match l with
  | [] => ret true
  | x :: rest => let* b := f x in if b then every A f rest else ret false
  end.
Arguments every {A} f l.

(** [for (const x of l) { if (f(x)) return true; } return false;] *)
Fixpoint some (A : Type) (f : A -> M bool) (l : list A) : M bool :=
  match l with
  | [] => ret false
  | x :: rest => let* b := f x in if b then ret true else some A f rest
  end.
Arguments some {A} f l.

(** [l.map(f)], where [f] may throw. *)
Fixpoint mapM (A B : Type) (f : A -> M B) (l : list A) : M (list B) :=
  match l with
  | [] => ret []
  | x :: rest => let* y := f x in let* ys := mapM A B f rest in ret (y :: ys)
  end.
Arguments mapM {A B} f l.

(** ** Type instances

    An instance is modelled by its class and its fields.  [AnyType] is
    instantiated once, as [Type.any], so that [x === Type.any] holds
    exactly of [TAny]; no other comparison of the module is by identity.

    The field [parameterTypes] of a [FunctionType] is read with
    [parameterTypes[name]], which looks through the prototype of the
    object, so the model keeps that prototype next to the own properties:
    [None] is [Object.prototype], the prototype of an object created as
    [{}]; [Some type] is the instance that an assignment to [__proto__]
    installed. *)

#[local] Unset Elimination Schemes.
Inductive Ty : Type :=
| TBase                                     (* new Type() *)
| TAny                                      (* Type.any, the AnyType *)
| TPrimitive (primitive : string)
| TAlias (name : string) (type : Ty)
| TUnion (union : list Ty)
| TRecord (record : JSObject.t Ty)
| TFunction (returnType : Ty) (argumentTypes : list Ty)
            (parameterTypes : JSObject.t Ty) (prototype : option Ty).
#[local] Set Elimination Schemes.

(** The constructors of the classes.  [FunctionType] is the call with
    no [parameterTypes] or with an object whose prototype is
    [Object.prototype]; the call of [FunctionType.fromDoctrine], whose
    object may have had its prototype replaced, is [TFunction] with that
    prototype. *)
Definition PrimitiveType (primitive : string) : Ty := TPrimitive (strip primitive).
Definition AliasType (name : string) (type : Ty) : Ty := TAlias name type.
Definition UnionType (union : list Ty) : Ty := TUnion union.
Definition RecordType (record : JSObject.t Ty) : Ty := TRecord record.
Definition FunctionType (returnType : Ty) (argumentTypes : list Ty)
    (parameterTypes : JSObject.t Ty) : Ty :=
  TFunction returnType argumentTypes parameterTypes None.

(** The well-known instances. *)
Definition Type_any : Ty := TAny.
Definition Type_undefined : Ty := PrimitiveType "undefined".
Definition Type_invalid : Ty := TBase.
Definition Type_string : Ty := PrimitiveType "string".
Definition Type_number : Ty := PrimitiveType "number".
Definition Type_boolean : Ty := PrimitiveType "boolean".
Definition Type_object : Ty := RecordType [].
Definition Type_null : Ty := PrimitiveType "null".
Definition Type_RegExp : Ty := PrimitiveType "RegExp".

(** The classes, as the right operand of [instanceof]. *)
Inductive kind : Type :=
| KType | KAnyType | KPrimitiveType | KAliasType | KUnionType | KRecordType
| KFunctionType.

(** [x instanceof kind]: every class extends [Type] directly. *)
Definition instanceof (x : Ty) (k : kind) : bool :=
  match k, x with
  | KType, _ => true
  | KAnyType, TAny => true
  | KPrimitiveType, TPrimitive _ => true
  | KAliasType, TAlias _ _ => true
  | KUnionType, TUnion _ => true
  | KRecordType, TRecord _ => true
  | KFunctionType, TFunction _ _ _ _ => true
  | _, _ => false
  end.

(** [this.instanceOf(kind)]: an alias answers for its target. *)
Definition instanceOf (this : Ty) (k : kind) : bool :=
  match this with
  | TAlias _ type => instanceof type k
  | _ => instanceof this k
  end.

(** [this.getPrimitive()]: [None] is [undefined]; [AliasType] inherits
    the method of [Type]. *)
Definition getPrimitive (this : Ty) : option string :=
  match this with
  | TPrimitive primitive => Some primitive
  | _ => None
  end.

(** [a === b] on the results of [getPrimitive]. *)
Definition strict_eq (a b : option string) : bool :=
  match a, b with
  | Some x, Some y => String.eqb x y
  | None, None => true
  | _, _ => false
  end.

Fixpoint getPropertyNames (this : Ty) : list string :=
  match this with
  | TAlias _ type => getPropertyNames type
  | TRecord record => JSObject.keys record
  | _ => []
  end.

(** [this.record.hasOwnProperty(name)] looks [hasOwnProperty] up on the
    record: an own property of that name holds a type, and calling it
    raises a TypeError. *)
Definition hasOwnProperty (o : JSObject.t Ty) (name : string) : completion bool :=
  if JSObject.has_own o "hasOwnProperty" then Throw TypeError
  else Return (JSObject.has_own o name).

Fixpoint getProperty (this : Ty) (name : string) : completion Ty :=
  match this with
  | TAny => Return Type_any
  | TAlias _ type => getProperty type name
  | TRecord record =>
      let+ has := hasOwnProperty record name in
      if has then Return (default Type_any (JSObject.own record name))
      else Return Type_any
  | _ => Return Type_invalid
  end.

Fixpoint getReturn (this : Ty) : Ty :=
  match this with
  | TAny => Type_any
  | TAlias _ type => getReturn type
  | TFunction returnType _ _ _ => returnType
  | _ => Type_invalid
  end.

(** [None] is [undefined]. *)
Fixpoint getArgumentCount (this : Ty) : option nat :=
  match this with
  | TAlias _ type => getArgumentCount type
  | TFunction _ argumentTypes _ _ => Some (length argumentTypes)
  | _ => None
  end.

(** [array[index]] at an integer: [undefined] out of range. *)
Definition at_index {A} (array : list A) (index : Z) : option A :=
  if (index <? 0)%Z then None else array !! Z.to_nat index.

Fixpoint getArgument (this : Ty) (index : Z) : Ty :=
  match this with
  | TAny => Type_any
  | TAlias _ type => getArgument type index
  | TFunction _ argumentTypes _ _ => default Type_invalid (at_index argumentTypes index)
  | _ => Type_invalid
  end.

(** What [parameterTypes[name]] can be: an instance, the string, array
    or dictionary held by a field of an instance, or a member that the
    prototype chain supplies ([VMember None name] for the member [name]
    of [Object.prototype], [VMember (Some type) name] for the member
    [name] that the instance [type] inherits from its class, from [Type]
    or from [Object.prototype]). *)
Inductive value : Type :=
| VType (type : Ty)
| VString (s : string)
| VArray (elements : list Ty)
| VDictionary (own : JSObject.t Ty)
| VMember (instance : option Ty) (name : string).

(** The property names of [Object.prototype]. *)
Definition Object_prototype : list string :=
  ["constructor"; "__defineGetter__"; "__defineSetter__"; "hasOwnProperty";
   "__lookupGetter__"; "__lookupSetter__"; "isPrototypeOf";
   "propertyIsEnumerable"; "toString"; "valueOf"; "__proto__";
   "toLocaleString"].

(** The property names of [Type.prototype]; the prototype of a subclass
    defines some of them again and no other. *)
Definition Type_prototype : list string :=
  ["constructor"; "isOfType"; "isSupertypeOf"; "getPropertyNames";
   "getProperty"; "getReturn"; "getArgumentCount"; "getArgument";
   "getParameter"; "hasParameter"; "toString"; "instanceOf"; "getPrimitive"].

Definition mem (name : string) (names : list string) : bool :=
  existsb (String.eqb name) names.

(** The fields that the constructor of its class gives an instance. *)
Definition field (this : Ty) (name : string) : option value :=
  match this with
  | TBase | TAny => None
  | TPrimitive primitive =>
      if String.eqb name "primitive" then Some (VString primitive) else None
  | TAlias alias type =>
      if String.eqb name "name" then Some (VString alias)
      else if String.eqb name "type" then Some (VType type)
      else None
  | TUnion union =>
      if String.eqb name "union" then Some (VArray union) else None
  | TRecord record =>
      if String.eqb name "record" then Some (VDictionary record) else None
  | TFunction returnType argumentTypes parameterTypes _ =>
      if String.eqb name "returnType" then Some (VType returnType)
      else if String.eqb name "argumentTypes" then Some (VArray argumentTypes)
      else if String.eqb name "parameterTypes" then Some (VDictionary parameterTypes)
      else None
  end.

(** [o[name]] for an object [o] with no own property [name], through its
    prototype; [None] is [undefined].  Under [__proto__] the accessor of
    [Object.prototype] gives the prototype itself. *)
Definition inherited (prototype : option Ty) (name : string) : option value :=
  match prototype with
  | None =>
      if mem name Object_prototype then Some (VMember None name) else None
  | Some type =>
      match field type name with
      | Some v => Some v
      | None =>
          if mem name Type_prototype then Some (VMember prototype name)
          else if String.eqb name "__proto__" then Some (VType type)
          else if mem name Object_prototype then Some (VMember prototype name)
          else None
      end
  end.

(** [o[name]] *)
Definition get (o : JSObject.t Ty) (prototype : option Ty) (name : string) :
    option value :=
  match JSObject.own o name with
  | Some type => Some (VType type)
  | None => inherited prototype name
  end.

(** [ToBoolean]: of these values only the empty string is falsy. *)
Definition truthy (v : value) : bool :=
  match v with
  | VString s => negb (String.eqb s "")
  | _ => true
  end.

(** [this.parameterTypes[name] || Type.any] *)
Fixpoint getParameter (this : Ty) (name : string) : value :=
  match this with
  | TAlias _ type => getParameter type name
  | TFunction _ _ parameterTypes prototype =>
      match get parameterTypes prototype name with
      | Some v => if truthy v then v else VType Type_any
      | None => VType Type_any
      end
  | _ => VType Type_invalid
  end.

Fixpoint hasParameter (this : Ty) (name : string) : completion bool :=
  match this with
  | TAlias _ type => hasParameter type name
  | TFunction _ _ parameterTypes _ => hasOwnProperty parameterTypes name
  | _ => Return false
  end.

(** [toString]: the renderings of the members are computed left to right;
    a record reads each of its properties through [getProperty]. *)
Fixpoint toString (this : Ty) : completion string :=
  match this with
  | TBase => Return "<invalid>"
  | TAny => Return "*"
  | TPrimitive primitive => Return primitive
  | TAlias name _ => Return name
  | TUnion union =>
      let+ parts :=
        (fix map (l : list Ty) : completion (list string) :=
           match l with
           | [] => Return []
           | type :: rest =>
               let+ s := toString type in
               let+ ss := map rest in Return (s :: ss)
           end) union in
      Return (join "|" parts)
  | TRecord record =>
      let+ parts :=
        (fix map (l : JSObject.t Ty) : completion (list string) :=
           match l with
           | [] => Return []
           | (name, type) :: rest =>
               let+ _ := hasOwnProperty record name in
               let+ s := toString type in
               let+ ss := map rest in Return ((name ++ ":" ++ s) :: ss)
           end) record in
      Return ("{" ++ join ", " parts ++ "}")
  | TFunction returnType argumentTypes _ _ =>
      let+ parts :=
        (fix map (l : list Ty) : completion (list string) :=
           match l with
           | [] => Return []
           | type :: rest =>
               let+ s := toString type in
               let+ ss := map rest in Return (s :: ss)
           end) argumentTypes in
      let+ r := toString returnType in
      Return ("function(" ++ join "," parts ++ "):" ++ r)
  end.

(** [x === Type.any] *)
Definition is_Type_any (x : Ty) : bool :=
  match x with
  | TAny => true
  | _ => false
  end.

(** ** [isOfType] and [isSupertypeOf]

    The two methods call each other through dynamic dispatch, and some
    pairs of instances send them round for ever; each call takes one unit
    of fuel.

    [FunctionType.isSupertypeOf] starts by calling [this.getReturnType()].
    No class defines [getReturnType]: the call raises a TypeError before
    anything else of the body is evaluated. *)
Fixpoint isOfType (fuel : nat) (this otherType : Ty) {struct fuel} : M bool :=
  match fuel with
  | O => None
  | S fuel =>
      match this with
      | TAny => ret (is_Type_any otherType)
      | TPrimitive _ =>
          if instanceOf otherType KPrimitiveType
          then ret (strict_eq (getPrimitive this) (getPrimitive otherType))
          else isSupertypeOf fuel otherType this
      | TAlias _ type => isOfType fuel type otherType
      | TUnion union => every (fun type => isOfType fuel type otherType) union
      | TRecord _ =>
          if instanceOf otherType KPrimitiveType then ret false
          else if negb (instanceOf otherType KRecordType)
          then isSupertypeOf fuel otherType this
          else every (fun name =>
                        let* mine := lift (getProperty this name) in
                        let* theirs := lift (getProperty otherType name) in
                        isOfType fuel mine theirs)
                     (getPropertyNames otherType)
      | TBase | TFunction _ _ _ _ => isSupertypeOf fuel otherType this
      end
  end
with isSupertypeOf (fuel : nat) (this otherType : Ty) {struct fuel} : M bool :=
  match fuel with
  | O => None
  | S fuel =>
      match this with
      | TBase => ret false
      | TAny => ret true
      | TPrimitive _ =>
          if instanceOf otherType KPrimitiveType
          then ret (strict_eq (getPrimitive this) (getPrimitive otherType))
          else isOfType fuel otherType this
      | TAlias _ type => isSupertypeOf fuel type otherType
      | TUnion union => some (fun type => isSupertypeOf fuel type otherType) union
      | TRecord _ =>
          if instanceOf otherType KPrimitiveType then ret false
          else if negb (instanceOf otherType KRecordType)
          then isOfType fuel otherType this
          else every (fun name =>
                        let* mine := lift (getProperty this name) in
                        let* theirs := lift (getProperty otherType name) in
                        isSupertypeOf fuel mine theirs)
                     (getPropertyNames this)
      | TFunction _ _ _ _ => throw TypeError
      end
  end.

(** The call [a.isOfType(b)] completes with [c]. *)
Definition isOfType_is (a b : Ty) (c : completion bool) : Prop :=
  exists fuel, isOfType fuel a b = Some c.

(** The call [a.isSupertypeOf(b)] completes with [c]. *)
Definition isSupertypeOf_is (a b : Ty) (c : completion bool) : Prop :=
  exists fuel, isSupertypeOf fuel a b = Some c.

(** The call never completes: the engine runs out of stack. *)
Definition isOfType_diverges (a b : Ty) : Prop :=
  forall fuel, isOfType fuel a b = None.

Definition isSupertypeOf_diverges (a b : Ty) : Prop :=
  forall fuel, isSupertypeOf fuel a b = None.

(** ** Translation of doctrine tags *)

(** A tag of a parsed comment; [None] is an absent ([undefined]) field. *)
Record tag : Type := Tag {
  title : string;
  tag_name : option string;
  tag_type : option doctrine_type
}.

(** The parsed comment [rec]; [Type.fromString] and the members of a
    union are translated with [{}], which has no [tags]. *)
Record Rec : Type := { tags : option (list tag) }.

Definition no_tags : Rec := {| tags := None |}.

(** The registry [typedefs] is an object of the caller; it is modelled
    by the types it holds under the typedef names.  [typedefs[name]] reads
    an entry, and an entry, an object, is truthy; [typedefs[name] = type]
    writes one.  What the object may inherit from a prototype is outside
    the model. *)
Abbreviation typedefs_t := (gmap string Ty).

Definition PrimitiveType_fromDoctrineType
    (type : doctrine_type) (rec : Rec) (typedefs : typedefs_t) : Ty :=
  match type with
  | DNameExpression name =>
      match typedefs !! name with
      | Some typedef => AliasType name typedef
      | None => PrimitiveType name
      end
  | DUndefinedLiteral => Type_undefined
  | _ => TBase
  end.

Section Translators.

(** [Type.fromDoctrineType], one call deeper. *)
Variable fromDoctrineType : option doctrine_type -> Rec -> typedefs_t -> M Ty.

Definition UnionType_fromDoctrineType
    (type : doctrine_type) (rec : Rec) (typedefs : typedefs_t) : M Ty :=
  match type with
  | DUnionType elements =>
      let* union :=
        mapM (fun element => fromDoctrineType (Some element) no_tags typedefs)
             elements in
      ret (UnionType union)
  | _ => throw TypeError
  end.

(** The loop of [RecordType.fromDoctrineType] over [rec.tags]. *)
Fixpoint properties (rec : Rec) (typedefs : typedefs_t)
    (rest : list tag) (record : JSObject.t Ty) : M (JSObject.t Ty) :=
  match rest with
  | [] => ret record
  | tag :: rest =>
      if String.eqb (title tag) "property" then
        let* type := fromDoctrineType (tag_type tag) rec typedefs in
        properties rec typedefs rest
          (JSObject.set record (to_key (tag_name tag)) type)
      else properties rec typedefs rest record
  end.

Definition RecordType_fromDoctrineType
    (type : option doctrine_type) (rec : Rec) (typedefs : typedefs_t) : M Ty :=
  match type with
  | None => throw TypeError
  | Some (DNameExpression name) =>
      if String.eqb name "object" then
        match tags rec with
        | None => throw TypeError
        | Some all =>
            let* record := properties rec typedefs all [] in
            ret (RecordType record)
        end
      else ret Type_invalid
  | Some _ => ret Type_invalid
  end.

Definition FunctionType_fromDoctrineType
    (type : doctrine_type) (rec : Rec) (typedefs : typedefs_t) : M Ty :=
  match type with
  | DFunctionType params result =>
      let* returnType :=
        match result with
        | Some r => fromDoctrineType (Some r) rec typedefs
        | None => ret Type_any
        end in
      let* paramTypes :=
        mapM (fun param => fromDoctrineType (Some param) rec typedefs) params in
      ret (FunctionType returnType paramTypes [])
  | _ => throw TypeError
  end.

(** The prototype of [o] after [o[k] = v], for an instance [v]: the
    assignment to [__proto__] installs [v]. *)
Definition set_prototype (prototype : option Ty) (k : string) (v : Ty) :
    option Ty :=
  if String.eqb k "__proto__" then Some v else prototype.

(** The loop of [FunctionType.fromDoctrine] over [rec.tags];
    [parameterTypes] is the object with its own properties and its
    prototype. *)
Fixpoint signature (rec : Rec) (typedefs : typedefs_t) (rest : list tag)
    (returnType : Ty) (argumentTypes : list Ty)
    (parameterTypes : JSObject.t Ty) (prototype : option Ty) : M Ty :=
  match rest with
  | [] => ret (TFunction returnType argumentTypes parameterTypes prototype)
  | tag :: rest =>
      if String.eqb (title tag) "return" || String.eqb (title tag) "returns" then
        let* type := fromDoctrineType (tag_type tag) rec typedefs in
        signature rec typedefs rest type argumentTypes parameterTypes prototype
      else if String.eqb (title tag) "param" then
        let* argumentType := fromDoctrineType (tag_type tag) rec typedefs in
        signature rec typedefs rest returnType
          (argumentTypes ++ [argumentType])
          (JSObject.set parameterTypes (to_key (tag_name tag)) argumentType)
          (set_prototype prototype (to_key (tag_name tag)) argumentType)
      else
        signature rec typedefs rest returnType argumentTypes parameterTypes
          prototype
  end.

Definition FunctionType_fromDoctrine (rec : Rec) (typedefs : typedefs_t) : M Ty :=
  match tags rec with
  | None => throw TypeError
  | Some all => signature rec typedefs all Type_any [] [] None
  end.

(** The body of [Type.fromDoctrineType]. *)
Definition Type_fromDoctrineType_body
    (type : option doctrine_type) (rec : Rec) (typedefs : typedefs_t) : M Ty :=
  match type with
  | None => throw TypeError
  | Some node =>
      match node with
      | DFunctionType _ _ => FunctionType_fromDoctrineType node rec typedefs
      | DRecordType _ => RecordType_fromDoctrineType type rec typedefs
      | DUnionType _ => UnionType_fromDoctrineType node rec typedefs
      | DNameExpression name =>
          if String.eqb name "object"
          then RecordType_fromDoctrineType type rec typedefs
          else ret (PrimitiveType_fromDoctrineType node rec typedefs)
      | DUndefinedLiteral => ret (PrimitiveType_fromDoctrineType node rec typedefs)
      | DOther _ => throw (DieUnknownType node)
      end
  end.

End Translators.

Fixpoint Type_fromDoctrineType (fuel : nat)
    (type : option doctrine_type) (rec : Rec) (typedefs : typedefs_t) : M Ty :=
  match fuel with
  | O => None
  | S fuel => Type_fromDoctrineType_body (Type_fromDoctrineType fuel) type rec typedefs
  end.

(** The tag titles [Type.fromDoctrine] acts on. *)
Definition actionable (t : string) : bool :=
  String.eqb t "typedef" || String.eqb t "type" || String.eqb t "return"
  || String.eqb t "returns" || String.eqb t "param".

(** The loop of [Type.fromDoctrine] over [rec.tags].  The registry is
    written by the [typedef] case alone, after the shape is translated. *)
Fixpoint first_tag (fuel : nat) (rec : Rec) (typedefs : typedefs_t)
    (rest : list tag) : option (completion Ty * typedefs_t) :=
  match rest with
  | [] => Some (Return Type_any, typedefs)
  | tag :: rest =>
      if String.eqb (title tag) "typedef" then
        match RecordType_fromDoctrineType (Type_fromDoctrineType fuel)
                (tag_type tag) rec typedefs with
        | Some (Return type) =>
            Some (Return Type_any, <[to_key (tag_name tag) := type]> typedefs)
        | Some (Throw e) => Some (Throw e, typedefs)
        | None => None
        end
      else if String.eqb (title tag) "type" then
        c ← Type_fromDoctrineType fuel (tag_type tag) rec typedefs;
        Some (c, typedefs)
      else if String.eqb (title tag) "return" || String.eqb (title tag) "returns"
              || String.eqb (title tag) "param" then
        c ← FunctionType_fromDoctrine (Type_fromDoctrineType fuel) rec typedefs;
        Some (c, typedefs)
      else first_tag fuel rec typedefs rest
  end.

(** [Type.fromDoctrine(rec, typedefs)]: the completion and the registry
    after the call. *)
Definition Type_fromDoctrine (fuel : nat) (rec : Rec) (typedefs : typedefs_t)
    : option (completion Ty * typedefs_t) :=
  match tags rec with
  | None => Some (Throw TypeError, typedefs)
  | Some all => first_tag fuel rec typedefs all
  end.

(** ** Notions the properties are stated with *)

(** [g] completes wherever [f] does, and alike. *)
Definition extends {A B} (f g : A -> M B) : Prop :=
  forall x c, f x = Some c -> g x = Some c.

(** The completion of [a && b], from those of its operands: [b] is
    evaluated when [a] is [true]. *)
Definition js_and (a b : completion bool -> Prop) (c : completion bool) : Prop :=
  (a (Return false) /\ c = Return false) \/
  (exists e, a (Throw e) /\ c = Throw e) \/
  (a (Return true) /\ b c).

(** The completion of [a || b]: [b] is evaluated when [a] is [false]. *)
Definition js_or (a b : completion bool -> Prop) (c : completion bool) : Prop :=
  (a (Return true) /\ c = Return true) \/
  (exists e, a (Throw e) /\ c = Throw e) \/
  (a (Return false) /\ b c).

(** The object after the assignments [o[k] = v] of [entries], in order. *)
Definition assign_all {A} (o : JSObject.t A) (entries : list (string * A))
    : JSObject.t A :=
  foldl (fun o entry => JSObject.set o entry.1 entry.2) o entries.

(** The value last assigned under [k], or [before] when there is none. *)
Fixpoint last_assigned {A} (entries : list (string * A)) (k : string)
    (before : option A) : option A :=
  match entries with
  | [] => before
  | (k', v) :: rest =>
      last_assigned rest k
        (if String.eqb k' k && negb (String.eqb k' "__proto__")
         then Some v else before)
  end.

(** The tags entitled [property]. *)
Definition property_tags (all : list tag) : list tag :=
  List.filter (fun tag => String.eqb (title tag) "property") all.

(** The keys the property tags are assigned under. *)
Definition property_keys (all : list tag) : list string :=
  (fun tag => to_key (tag_name tag)) <$> property_tags all.

(** ** The examples *)

(** The registry of the example: [Point] is the record of two numbers. *)
Definition Point : Ty := RecordType [("x", Type_number); ("y", Type_number)].

(** The comment of the example: [@typedef {object} Pair] with
    [@property {number} a]. *)
Definition Pair_typedef : tag :=
  Tag "typedef" (Some "Pair") (Some (DNameExpression "object")).
Definition Pair_property : tag :=
  Tag "property" (Some "a") (Some (DNameExpression "number")).
Definition Pair_rec : Rec := {| tags := Some [Pair_typedef; Pair_property] |}.

(** The comment [@typedef {string} Id], met when the registry holds
    [Point] under [Id]. *)
Definition Id_typedef : tag :=
  Tag "typedef" (Some "Id") (Some (DNameExpression "string")).
Definition Id_rec : Rec := {| tags := Some [Id_typedef] |}.

(** ** Induction on instances, through the members they hold *)

Section Ty_induction.

Variable P : Ty -> Prop.
Hypothesis HBase : P TBase.
Hypothesis HAny : P TAny.
Hypothesis HPrimitive : forall primitive, P (TPrimitive primitive).
Hypothesis HAlias : forall name type, P type -> P (TAlias name type).
Hypothesis HUnion : forall union, Forall P union -> P (TUnion union).
Hypothesis HRecord :
  forall record, Forall (fun entry => P entry.2) record -> P (TRecord record).
Hypothesis HFunction :
  forall returnType argumentTypes parameterTypes prototype,
    P returnType -> Forall P argumentTypes ->
    Forall (fun entry => P entry.2) parameterTypes ->
    (forall type, prototype = Some type -> P type) ->
    P (TFunction returnType argumentTypes parameterTypes prototype).

Fixpoint Ty_ind (t : Ty) : P t :=
  let members :=
    fix members (l : list Ty) : Forall P l :=
      match l with
      | [] => List.Forall_nil P
      | x :: rest => List.Forall_cons P x rest (Ty_ind x) (members rest)
      end in
  let entries :=
    fix entries (l : JSObject.t Ty) : Forall (fun entry => P entry.2) l :=
      match l with
      | [] => List.Forall_nil _
      | (k, x) :: rest =>
          List.Forall_cons (fun entry => P entry.2) (k, x) rest
            (Ty_ind x) (entries rest)
      end in
  match t with
  | TBase => HBase
  | TAny => HAny
  | TPrimitive primitive => HPrimitive primitive
  | TAlias name type => HAlias name type (Ty_ind type)
  | TUnion union => HUnion union (members union)
  | TRecord record => HRecord record (entries record)
  | TFunction returnType argumentTypes parameterTypes prototype =>
      HFunction returnType argumentTypes parameterTypes prototype
        (Ty_ind returnType) (members argumentTypes) (entries parameterTypes)
        (match prototype as o
               return forall type, o = Some type -> P type with
         | Some type' =>
             fun type (H : Some type' = Some type) =>
               match H in _ = o
                     return match o with Some x => P x | None => True end with
               | eq_refl => Ty_ind type'
               end
         | None =>
             fun type (H : None = Some type) =>
               match H in _ = o
                     return match o with Some x => P x | None => True end with
               | eq_refl => I
               end
         end)
  end.

End Ty_induction.

(** ** Notions for the further properties *)

(** The number of instances an instance is made of. *)
Fixpoint size (t : Ty) : nat :=
  match t with
  | TBase | TAny | TPrimitive _ => 1
  | TAlias _ type => S (size type)
  | TUnion union =>
      S ((fix sum (l : list Ty) : nat :=
            match l with
            | [] => 0
            | x :: rest => size x + sum rest
            end) union)
  | TRecord record =>
      S ((fix sum (l : JSObject.t Ty) : nat :=
            match l with
            | [] => 0
            | (_, x) :: rest => size x + sum rest
            end) record)
  | TFunction returnType argumentTypes parameterTypes prototype =>
      S (size returnType
         + (fix sum (l : list Ty) : nat :=
              match l with
              | [] => 0
              | x :: rest => size x + sum rest
              end) argumentTypes
         + (fix sum (l : JSObject.t Ty) : nat :=
              match l with
              | [] => 0
              | (_, x) :: rest => size x + sum rest
              end) parameterTypes
         + match prototype with
           | Some type => size type
           | None => 0
           end)
  end.

(** The instances made of [Type.any], primitives, aliases, unions and
    records that have no property called [hasOwnProperty]: no base
    instance and no function type anywhere in them. *)
Fixpoint comparable (t : Ty) : bool :=
  match t with
  | TAny | TPrimitive _ => true
  | TAlias _ type => comparable type
  | TUnion union =>
      (fix all (l : list Ty) : bool :=
         match l with
         | [] => true
         | x :: rest => comparable x && all rest
         end) union
  | TRecord record =>
      negb (JSObject.has_own record "hasOwnProperty")
      && (fix all (l : JSObject.t Ty) : bool :=
            match l with
            | [] => true
            | (_, x) :: rest => comparable x && all rest
            end) record
  | TBase | TFunction _ _ _ _ => false
  end.

(** The instances made of the base type, [Type.any], primitives and
    records of such instances. *)
Fixpoint structural (t : Ty) : bool :=
  match t with
  | TBase | TAny | TPrimitive _ => true
  | TRecord record =>
      (fix all (l : JSObject.t Ty) : bool :=
         match l with
         | [] => true
         | (_, x) :: rest => structural x && all rest
         end) record
  | TAlias _ _ | TUnion _ | TFunction _ _ _ _ => false
  end.

(** A target that an alias stands for in every position: neither
    [Type.any], nor a primitive, nor another alias. *)
Definition transparent_target (t : Ty) : bool :=
  match t with
  | TAny | TPrimitive _ | TAlias _ _ => false
  | _ => true
  end.

(** Both properties are there and hold the same primitive. *)
Definition same_primitive (mine theirs : option Ty) : bool :=
  match mine, theirs with
  | Some (TPrimitive p), Some (TPrimitive q) => String.eqb p q
  | _, _ => false
  end.

(** Every property of the record holds a primitive, and none is called
    [hasOwnProperty]. *)
Definition primitive_fields (record : JSObject.t Ty) : bool :=
  negb (JSObject.has_own record "hasOwnProperty")
  && forallb (fun entry => match entry.2 with TPrimitive _ => true | _ => false end)
       record.

(** What [Type.fromDoctrine] registers: a record or the base type. *)
Definition typedef_shape (t : Ty) : bool :=
  match t with
  | TBase | TRecord _ => true
  | _ => false
  end.

(** The tags entitled [param], and the keys they are assigned under. *)
Definition param_tags (all : list tag) : list tag :=
  List.filter (fun tag => String.eqb (title tag) "param") all.

Definition param_keys (all : list tag) : list string :=
  (fun tag => to_key (tag_name tag)) <$> param_tags all.

(** The prototype of an object after the assignments [o[k] = v] of
    [entries], in order. *)
Definition assigned_prototype (entries : list (string * Ty))
    (prototype : option Ty) : option Ty :=
  foldl (fun prototype entry => set_prototype prototype entry.1 entry.2)
        prototype entries.

(** [@param {number} a], [@param {string} __proto__]. *)
Definition proto_tags : list tag :=
  [Tag "param" (Some "a") (Some (DNameExpression "number"));
   Tag "param" (Some "__proto__") (Some (DNameExpression "string"))].
Definition proto_rec : Rec := {| tags := Some proto_tags |}.

(** The tags entitled [return] or [returns]. *)
Definition return_tags (all : list tag) : list tag :=
  List.filter (fun tag => String.eqb (title tag) "return"
                          || String.eqb (title tag) "returns") all.

(** The nodes made of names other than [object], the undefined literal,
    unions, record expressions and function types. *)
Fixpoint simple_node (node : doctrine_type) : bool :=
  match node with
  | DNameExpression name => negb (String.eqb name "object")
  | DUndefinedLiteral => true
  | DUnionType elements =>
      (fix all (l : list doctrine_type) : bool :=
         match l with
         | [] => true
         | x :: rest => simple_node x && all rest
         end) elements
  | DRecordType _ => true
  | DFunctionType params result =>
      (fix all (l : list doctrine_type) : bool :=
         match l with
         | [] => true
         | x :: rest => simple_node x && all rest
         end) params
      && match result with
         | Some r => simple_node r
         | None => true
         end
  | DOther _ => false
  end.

(** ** Induction on nodes, through the nodes they hold *)

Section doctrine_type_induction.

Variable P : doctrine_type -> Prop.
Hypothesis HName : forall name, P (DNameExpression name).
Hypothesis HUndefined : P DUndefinedLiteral.
Hypothesis HUnionNode : forall elements, Forall P elements -> P (DUnionType elements).
Hypothesis HRecordNode : forall fields, P (DRecordType fields).
Hypothesis HFunctionNode :
  forall params result,
    Forall P params -> (forall r, result = Some r -> P r) ->
    P (DFunctionType params result).
Hypothesis HOther : forall type, P (DOther type).

Fixpoint doctrine_type_ind (node : doctrine_type) : P node :=
  let nodes :=
    fix nodes (l : list doctrine_type) : Forall P l :=
      match l with
      | [] => List.Forall_nil P
      | x :: rest => List.Forall_cons P x rest (doctrine_type_ind x) (nodes rest)
      end in
  match node with
  | DNameExpression name => HName name
  | DUndefinedLiteral => HUndefined
  | DUnionType elements => HUnionNode elements (nodes elements)
  | DRecordType fields => HRecordNode fields
  | DFunctionType params result =>
      HFunctionNode params result (nodes params)
        (match result as o return forall r, o = Some r -> P r with
         | Some r' =>
             fun r (H : Some r' = Some r) =>
               match H in _ = o return match o with Some x => P x | None => True end with
               | eq_refl => doctrine_type_ind r'
               end
         | None => fun r (H : None = Some r) =>
             match H in _ = o return match o with Some x => P x | None => True end with
             | eq_refl => I
             end
         end)
  | DOther type => HOther type
  end.

End doctrine_type_induction.

(** ** Further examples *)

(** [@param {number} a], [@param {string} b], [@returns {boolean}]. *)
Definition signature_tags : list tag :=
  [Tag "param" (Some "a") (Some (DNameExpression "number"));
   Tag "param" (Some "b") (Some (DNameExpression "string"));
   Tag "returns" None (Some (DNameExpression "boolean"))].
Definition signature_rec : Rec := {| tags := Some signature_tags |}.

(** [@type {Pair}]. *)
Definition Pair_use : tag := Tag "type" None (Some (DNameExpression "Pair")).
Definition Pair_use_rec : Rec := {| tags := Some [Pair_use] |}.

(** * Properties *)

(** ** Fuel *)

Lemma bind_extends {A B} (m m' : M A) (k k' : A -> M B) c :
  (forall a, m = Some a -> m' = Some a) -> extends k k' ->
  bind m k = Some c -> bind m' k' = Some c.
Proof.
  intros Hm Hk. unfold bind.
  destruct m as [[a|e]|]; [| |discriminate].
  - rewrite (Hm _ eq_refl). apply Hk.
  - rewrite (Hm _ eq_refl). auto.
Qed.

Lemma every_extends {A} (f g : A -> M bool) :
  extends f g -> extends (every f) (every g).
Proof.
  intros H l. induction l as [|x l IH]; intros c; simpl; [auto|].
  apply bind_extends; [intros a; apply H|].
  intros [] ?; auto.
Qed.

Lemma some_extends {A} (f g : A -> M bool) :
  extends f g -> extends (some f) (some g).
Proof.
  intros H l. induction l as [|x l IH]; intros c; simpl; [auto|].
  apply bind_extends; [intros a; apply H|].
  intros [] ?; auto.
Qed.

Lemma mapM_extends {A B} (f g : A -> M B) :
  extends f g -> extends (mapM f) (mapM g).
Proof.
  intros H l. induction l as [|x l IH]; intros c; simpl; [auto|].
  apply bind_extends; [intros a; apply H|].
  intros y c'. apply bind_extends; [intros a; apply IH|].
  intros ? ?; auto.
Qed.

(** The bodies of the two methods. *)
Lemma isOfType_S fuel this otherType :
  isOfType (S fuel) this otherType =
  match this with
  | TAny => ret (is_Type_any otherType)
  | TPrimitive _ =>
      if instanceOf otherType KPrimitiveType
      then ret (strict_eq (getPrimitive this) (getPrimitive otherType))
      else isSupertypeOf fuel otherType this
  | TAlias _ type => isOfType fuel type otherType
  | TUnion union => every (fun type => isOfType fuel type otherType) union
  | TRecord _ =>
      if instanceOf otherType KPrimitiveType then ret false
      else if negb (instanceOf otherType KRecordType)
      then isSupertypeOf fuel otherType this
      else every (fun name =>
                    let* mine := lift (getProperty this name) in
                    let* theirs := lift (getProperty otherType name) in
                    isOfType fuel mine theirs)
                 (getPropertyNames otherType)
  | TBase | TFunction _ _ _ _ => isSupertypeOf fuel otherType this
  end.
Proof. reflexivity. Qed.

Lemma isSupertypeOf_S fuel this otherType :
  isSupertypeOf (S fuel) this otherType =
  match this with
  | TBase => ret false
  | TAny => ret true
  | TPrimitive _ =>
      if instanceOf otherType KPrimitiveType
      then ret (strict_eq (getPrimitive this) (getPrimitive otherType))
      else isOfType fuel otherType this
  | TAlias _ type => isSupertypeOf fuel type otherType
  | TUnion union => some (fun type => isSupertypeOf fuel type otherType) union
  | TRecord _ =>
      if instanceOf otherType KPrimitiveType then ret false
      else if negb (instanceOf otherType KRecordType)
      then isOfType fuel otherType this
      else every (fun name =>
                    let* mine := lift (getProperty this name) in
                    let* theirs := lift (getProperty otherType name) in
                    isSupertypeOf fuel mine theirs)
                 (getPropertyNames this)
  | TFunction _ _ _ _ => throw TypeError
  end.
Proof. reflexivity. Qed.

(** One more unit of fuel changes no completion. *)
Lemma fuel_succ fuel :
  (forall a b c, isOfType fuel a b = Some c -> isOfType (S fuel) a b = Some c) /\
  (forall a b c, isSupertypeOf fuel a b = Some c -> isSupertypeOf (S fuel) a b = Some c).
Proof.
  induction fuel as [|fuel [IHo IHs]]; [split; intros; discriminate|].
  split; intros a b c.
  - rewrite (isOfType_S (S fuel)), (isOfType_S fuel). destruct a; auto.
    + destruct (instanceOf b KPrimitiveType); auto.
    + apply every_extends. intros x c'. apply IHo.
    + destruct (instanceOf b KPrimitiveType); auto.
      destruct (negb (instanceOf b KRecordType)); auto.
      apply every_extends. intros x c'.
      apply bind_extends; auto. intros mine c1.
      apply bind_extends; auto. intros theirs c2. apply IHo.
  - rewrite (isSupertypeOf_S (S fuel)), (isSupertypeOf_S fuel). destruct a; auto.
    + destruct (instanceOf b KPrimitiveType); auto.
    + apply some_extends. intros x c'. apply IHs.
    + destruct (instanceOf b KPrimitiveType); auto.
      destruct (negb (instanceOf b KRecordType)); auto.
      apply every_extends. intros x c'.
      apply bind_extends; auto. intros mine c1.
      apply bind_extends; auto. intros theirs c2. apply IHs.
Qed.

Lemma isOfType_fuel fuel fuel' a b c :
  fuel <= fuel' -> isOfType fuel a b = Some c -> isOfType fuel' a b = Some c.
Proof.
  induction 1 as [|m _ IH]; [auto|]. intros H. apply fuel_succ. auto.
Qed.

Lemma isSupertypeOf_fuel fuel fuel' a b c :
  fuel <= fuel' -> isSupertypeOf fuel a b = Some c ->
  isSupertypeOf fuel' a b = Some c.
Proof.
  induction 1 as [|m _ IH]; [auto|]. intros H. apply fuel_succ. auto.
Qed.

(** A call has at most one completion. *)
Lemma isOfType_is_unique a b c c' :
  isOfType_is a b c -> isOfType_is a b c' -> c = c'.
Proof.
  intros [n Hn] [m Hm].
  apply (isOfType_fuel n (n `max` m)) in Hn; [|lia].
  apply (isOfType_fuel m (n `max` m)) in Hm; [|lia]. congruence.
Qed.

Lemma isSupertypeOf_is_unique a b c c' :
  isSupertypeOf_is a b c -> isSupertypeOf_is a b c' -> c = c'.
Proof.
  intros [n Hn] [m Hm].
  apply (isSupertypeOf_fuel n (n `max` m)) in Hn; [|lia].
  apply (isSupertypeOf_fuel m (n `max` m)) in Hm; [|lia]. congruence.
Qed.

Lemma is_Type_any_spec x : is_Type_any x = true <-> x = Type_any.
Proof. destruct x; simpl; split; (discriminate || reflexivity). Qed.

(** ** The model on the examples of the documentation *)

(** [Object.keys] after [b], [2], [a], [1], [b] again, [10] and [01] are
    assigned: the array indices come first, in numeric order. *)
Example keys_in_order :
  JSObject.keys
    (assign_all [] [("b", 1); ("2", 2); ("a", 3); ("1", 4); ("b", 5);
                    ("10", 6); ("01", 7)])
  = ["1"; "2"; "10"; "b"; "a"; "01"].
Proof. reflexivity. Qed.

Example strip_spaces : strip " str ing " = "string".
Proof. reflexivity. Qed.

(** [@param {number} a], [@param {string} b], [@returns {boolean}]. *)
Example function_of_tags :
  let rec :=
    {| tags := Some [Tag "param" (Some "a") (Some (DNameExpression "number"));
                     Tag "param" (Some "b") (Some (DNameExpression "string"));
                     Tag "returns" None (Some (DNameExpression "boolean"))] |} in
  exists f,
    Type_fromDoctrine 1 rec ∅ = Some (Return f, ∅) /\
    getArgumentCount f = Some 2 /\
    getArgument f 0 = Type_number /\
    getParameter f "b" = VType Type_string /\
    getParameter f "c" = VType Type_any /\
    getParameter f "constructor" = VMember None "constructor" /\
    getReturn f = Type_boolean /\
    toString f = Return "function(number,string):boolean".
Proof. eexists. repeat split. Qed.

(** [@param {number} a], [@param {string} __proto__]: the second tag
    creates no property of [parameterTypes] and replaces its prototype,
    through which [getParameter] then reads. *)
Example function_of_proto_param :
  exists f,
    Type_fromDoctrine 1 proto_rec ∅ = Some (Return f, ∅) /\
    getArgumentCount f = Some 2 /\
    hasParameter f "__proto__" = Return false /\
    getParameter f "__proto__" = VType Type_string /\
    getParameter f "primitive" = VString "string" /\
    getParameter f "toString" = VMember (Some Type_string) "toString" /\
    getParameter f "a" = VType Type_number /\
    getParameter f "b" = VType Type_any.
Proof. eexists. repeat split. Qed.

(** ** The two methods on a [FunctionType] *)

(** The prototype of [parameterTypes] plays no part in the comparison or
    in [getProperty]. *)
Lemma function_isSupertypeOf_throws
    returnType argumentTypes parameterTypes prototype otherType fuel :
  isSupertypeOf (S fuel)
    (TFunction returnType argumentTypes parameterTypes prototype) otherType
  = Some (Throw TypeError).
Proof. reflexivity. Qed.

Lemma function_getProperty_invalid
    returnType argumentTypes parameterTypes prototype name :
  getProperty (TFunction returnType argumentTypes parameterTypes prototype) name
  = Return Type_invalid.
Proof. reflexivity. Qed.

(** C1 (as the code behaves): [isSupertypeOf] on a [FunctionType] raises
    a TypeError whatever the other type is.  For the function type [f] of
    no arguments, [Type.string.isSupertypeOf(f)] and [f.isOfType(Type.string)]
    never complete: the first calls [f.isOfType], which [FunctionType]
    inherits from [Type] and which calls the first again. *)
Theorem C1_function_type_fails :
  (forall returnType argumentTypes parameterTypes otherType fuel,
     isSupertypeOf (S fuel)
       (FunctionType returnType argumentTypes parameterTypes) otherType
     = Some (Throw TypeError)) /\
  isSupertypeOf 1 (FunctionType Type_any [] []) Type_string
    = Some (Throw TypeError) /\
  isSupertypeOf_diverges Type_string (FunctionType Type_any [] []) /\
  isOfType_diverges (FunctionType Type_any [] []) Type_string.
Proof.
  split; [reflexivity|]. split; [reflexivity|].
  assert (H : forall fuel,
             isSupertypeOf fuel Type_string (FunctionType Type_any [] []) = None /\
             isOfType fuel (FunctionType Type_any [] []) Type_string = None).
  { induction fuel as [|fuel [IHs IHo]]; [split; reflexivity|].
    rewrite isSupertypeOf_S, isOfType_S. split; [exact IHo | exact IHs]. }
  split; intros fuel; apply H.
Qed.

(** ** Primitive types *)

(** C4: for primitive types built from the names [p] and [q],
    [isOfType] and [isSupertypeOf], in either direction, return whether
    the stripped names are equal. *)
Theorem C4_primitive_equality (p q : string) (fuel : nat) :
  let same := bool_decide (strip p = strip q) in
  isOfType (S fuel) (PrimitiveType p) (PrimitiveType q) = Some (Return same) /\
  isSupertypeOf (S fuel) (PrimitiveType p) (PrimitiveType q) = Some (Return same) /\
  isOfType (S fuel) (PrimitiveType q) (PrimitiveType p) = Some (Return same) /\
  isSupertypeOf (S fuel) (PrimitiveType q) (PrimitiveType p) = Some (Return same).
Proof.
  assert (E : forall a b : string, String.eqb a b = bool_decide (a = b)).
  { intros a b. destruct (String.eqb_spec a b) as [->|n].
    - by rewrite bool_decide_eq_true_2.
    - by rewrite bool_decide_eq_false_2. }
  cbn. unfold ret. rewrite !E. repeat split; try reflexivity;
    do 2 f_equal; apply bool_decide_ext; split; congruence.
Qed.

(** ** The Unknown type *)

(** Every member answers [true] with some fuel: so does the loop, with
    one amount of fuel for all. *)
Lemma every_isOfType_true (union : list Ty) (otherType : Ty) :
  Forall (fun type => isOfType_is type otherType (Return true)) union ->
  exists fuel,
    every (fun type => isOfType fuel type otherType) union = Some (Return true).
Proof.
  induction 1 as [|type union [n Hn] _ [m Hm]]; [by exists 0|].
  exists (n `max` m). simpl.
  rewrite (isOfType_fuel n (n `max` m) _ _ _ ltac:(lia) Hn). simpl.
  revert Hm. apply every_extends. intros x c.
  apply isOfType_fuel. lia.
Qed.

(** Whatever the type, [isOfType] against [Type.any] answers [true]. *)
Lemma isOfType_any (t : Ty) : isOfType_is t Type_any (Return true).
Proof.
  induction t as [| |p|name type [n IH]|union IH|record _|r a ps pr _ _ _ _]
    using Ty_ind.
  - by exists 2.
  - by exists 1.
  - by exists 2.
  - exists (S n). by rewrite isOfType_S.
  - destruct (every_isOfType_true union Type_any IH) as [n Hn].
    exists (S n). by rewrite isOfType_S.
  - by exists 2.
  - by exists 2.
Qed.

(** C2 (amended): [Type.any.isSupertypeOf(t)] is [true] for every [t];
    [Type.any.isOfType(t)] is [true] when [t] is [Type.any] itself and
    [false] for every other [t]; and [t.isOfType(Type.any)] is [true]
    for every [t]. *)
Theorem C2_unknown_type (t : Ty) :
  (forall fuel, isSupertypeOf (S fuel) Type_any t = Some (Return true)) /\
  (forall fuel, isOfType (S fuel) Type_any t = Some (Return (is_Type_any t))) /\
  (is_Type_any t = true <-> t = Type_any) /\
  isOfType_is t Type_any (Return true).
Proof.
  split; [reflexivity|]. split; [reflexivity|].
  split; [apply is_Type_any_spec | apply isOfType_any].
Qed.

(** C2 (as stated) fails at [Type.string]: it is not the Unknown type,
    and [Type.string.isOfType(Type.any)] is [true]. *)
Lemma C2_counterexample :
  Type_string <> Type_any /\
  isOfType 2 Type_string Type_any = Some (Return true) /\
  ~ isOfType_is Type_string Type_any (Return false).
Proof.
  split; [discriminate|]. split; [reflexivity|].
  intros H. assert (H' : isOfType_is Type_string Type_any (Return true))
    by (by exists 2).
  pose proof (isOfType_is_unique _ _ _ _ H H'). discriminate.
Qed.

(** ** Union types *)

Lemma union_isOfType (A B x : Ty) (c : completion bool) :
  isOfType_is (UnionType [A; B]) x c <->
  js_and (isOfType_is A x) (isOfType_is B x) c.
Proof.
  split.
  - intros [[|fuel] H]; [discriminate|].
    rewrite isOfType_S in H. simpl in H. unfold bind, ret in H.
    destruct (isOfType fuel A x) as [[[]|e]|] eqn:EA; [| | |discriminate].
    + right; right. split; [by exists fuel|].
      destruct (isOfType fuel B x) as [[[]|e]|] eqn:EB; [| | |discriminate];
        exists fuel; rewrite EB; exact H.
    + left. split; [by exists fuel|]. congruence.
    + right; left. exists e. split; [by exists fuel|]. congruence.
  - intros [[[n Hn] ->]|[(e & [n Hn] & ->)|[[n Hn] [m Hm]]]].
    + exists (S n). rewrite isOfType_S. simpl. by rewrite Hn.
    + exists (S n). rewrite isOfType_S. simpl. by rewrite Hn.
    + exists (S (n `max` m)). rewrite isOfType_S. simpl.
      rewrite (isOfType_fuel n (n `max` m) _ _ _ ltac:(lia) Hn). simpl.
      rewrite (isOfType_fuel m (n `max` m) _ _ _ ltac:(lia) Hm).
      by destruct c as [[]|].
Qed.

Lemma union_isSupertypeOf (A B x : Ty) (c : completion bool) :
  isSupertypeOf_is (UnionType [A; B]) x c <->
  js_or (isSupertypeOf_is A x) (isSupertypeOf_is B x) c.
Proof.
  split.
  - intros [[|fuel] H]; [discriminate|].
    rewrite isSupertypeOf_S in H. simpl in H. unfold bind, ret in H.
    destruct (isSupertypeOf fuel A x) as [[[]|e]|] eqn:EA; [| | |discriminate].
    + left. split; [by exists fuel|]. congruence.
    + right; right. split; [by exists fuel|].
      destruct (isSupertypeOf fuel B x) as [[[]|e]|] eqn:EB; [| | |discriminate];
        exists fuel; rewrite EB; exact H.
    + right; left. exists e. split; [by exists fuel|]. congruence.
  - intros [[[n Hn] ->]|[(e & [n Hn] & ->)|[[n Hn] [m Hm]]]].
    + exists (S n). rewrite isSupertypeOf_S. simpl. by rewrite Hn.
    + exists (S n). rewrite isSupertypeOf_S. simpl. by rewrite Hn.
    + exists (S (n `max` m)). rewrite isSupertypeOf_S. simpl.
      rewrite (isSupertypeOf_fuel n (n `max` m) _ _ _ ltac:(lia) Hn). simpl.
      rewrite (isSupertypeOf_fuel m (n `max` m) _ _ _ ltac:(lia) Hm).
      by destruct c as [[]|].
Qed.

(** C3: for the union of [A] and [B] and every [x], [isSupertypeOf(x)]
    completes as [A.isSupertypeOf(x) || B.isSupertypeOf(x)] does and
    [isOfType(x)] completes as [A.isOfType(x) && B.isOfType(x)] does; when
    the members return [a] and [b], these are [a || b] and [a && b].  The
    two differ: [string|number] is a supertype of [string], and its
    [isOfType] against [string] is [false]. *)
Theorem C3_union_members (A B x : Ty) :
  (forall c, isSupertypeOf_is (UnionType [A; B]) x c <->
             js_or (isSupertypeOf_is A x) (isSupertypeOf_is B x) c) /\
  (forall c, isOfType_is (UnionType [A; B]) x c <->
             js_and (isOfType_is A x) (isOfType_is B x) c) /\
  (forall a b, isSupertypeOf_is A x (Return a) -> isSupertypeOf_is B x (Return b) ->
               isSupertypeOf_is (UnionType [A; B]) x (Return (a || b))) /\
  (forall a b, isOfType_is A x (Return a) -> isOfType_is B x (Return b) ->
               isOfType_is (UnionType [A; B]) x (Return (a && b))) /\
  (isSupertypeOf_is (UnionType [Type_string; Type_number]) Type_string (Return true) /\
   isOfType_is (UnionType [Type_string; Type_number]) Type_string (Return false)).
Proof.
  split; [intros c; apply union_isSupertypeOf|].
  split; [intros c; apply union_isOfType|].
  split; [|split].
  - intros a b Ha Hb. apply union_isSupertypeOf. destruct a; simpl.
    + left. auto.
    + right; right. auto.
  - intros a b Ha Hb. apply union_isOfType. destruct a; simpl.
    + right; right. auto.
    + left. auto.
  - split; by exists 2.
Qed.

(** ** Aliases *)

Lemma alias_isOfType name type x c :
  isOfType_is (AliasType name type) x c <-> isOfType_is type x c.
Proof.
  split.
  - intros [[|fuel] H]; [discriminate|]. by exists fuel.
  - intros [fuel H]. by exists (S fuel).
Qed.

Lemma alias_isSupertypeOf name type x c :
  isSupertypeOf_is (AliasType name type) x c <-> isSupertypeOf_is type x c.
Proof.
  split.
  - intros [[|fuel] H]; [discriminate|]. by exists fuel.
  - intros [fuel H]. by exists (S fuel).
Qed.

(** C5: when [typedefs] holds [target] under [name], the translation of
    the name expression [name] is the alias of [target] under [name]; its
    [toString()] is [name]; [isOfType], [isSupertypeOf] and the accessors
    complete on it as they do on [target].  [Type.fromDoctrineType] hands
    every name expression but [object] to this translation. *)
Theorem C5_alias_of_typedef
    (name : string) (target : Ty) (rec : Rec) (typedefs : typedefs_t) :
  typedefs !! name = Some target ->
  let alias := PrimitiveType_fromDoctrineType (DNameExpression name) rec typedefs in
  alias = AliasType name target /\
  toString alias = Return name /\
  (forall x c, isOfType_is alias x c <-> isOfType_is target x c) /\
  (forall x c, isSupertypeOf_is alias x c <-> isSupertypeOf_is target x c) /\
  getPropertyNames alias = getPropertyNames target /\
  (forall property, getProperty alias property = getProperty target property) /\
  getReturn alias = getReturn target /\
  getArgumentCount alias = getArgumentCount target /\
  (forall index, getArgument alias index = getArgument target index) /\
  (forall parameter, getParameter alias parameter = getParameter target parameter) /\
  (forall parameter, hasParameter alias parameter = hasParameter target parameter) /\
  (name <> "object" ->
   forall fuel,
     Type_fromDoctrineType (S fuel) (Some (DNameExpression name)) rec typedefs
     = Some (Return alias)).
Proof.
  intros H alias.
  assert (E : alias = AliasType name target).
  { unfold alias. simpl. by rewrite H. }
  rewrite E. repeat split; try apply alias_isOfType; try apply alias_isSupertypeOf.
  intros Hname fuel. simpl.
  destruct (String.eqb_spec name "object") as [->|_]; [done|].
  by rewrite H.
Qed.

Lemma C5_alias_of_typedef_witness :
  ({["Point" := Point]} : typedefs_t) !! "Point" = Some Point /\
  toString (PrimitiveType_fromDoctrineType (DNameExpression "Point") no_tags
              {["Point" := Point]}) = Return "Point" /\
  toString Point = Return "{x:number, y:number}".
Proof.
  split; [apply lookup_singleton_eq|].
  split; [|reflexivity].
  apply (C5_alias_of_typedef "Point" Point no_tags {["Point" := Point]}).
  apply lookup_singleton_eq.
Defined.

(** The alias of [Point] against records: the same shape and a wider one
    are below it, a record whose [x] is a string is not. *)
Example alias_of_Point :
  let alias := AliasType "Point" Point in
  isSupertypeOf 4 alias (RecordType [("x", Type_number); ("y", Type_number)])
    = Some (Return true) /\
  isSupertypeOf 4 alias
    (RecordType [("x", Type_number); ("y", Type_number); ("z", Type_string)])
    = Some (Return true) /\
  isSupertypeOf 4 alias (RecordType [("x", Type_string); ("y", Type_number)])
    = Some (Return false).
Proof. repeat split. Qed.

(** ** Assignments to an object *)

Module JSObjectFacts.
Import JSObject.

Lemma own_replace {A} (o : t A) k v k' :
  own (replace o k v) k' =
  if String.eqb k k' then (if has_own o k then Some v else None) else own o k'.
Proof.
  unfold has_own. induction o as [|[k0 v0] o IH]; simpl.
  - by destruct (String.eqb k k').
  - destruct (String.eqb_spec k0 k) as [->|Hne]; simpl.
    + by destruct (String.eqb k k').
    + rewrite IH. destruct (String.eqb_spec k k') as [E|?]; [|done].
      subst k'. by destruct (String.eqb_spec k0 k).
Qed.

Lemma own_add {A} (o : t A) k v k' :
  own o k = None ->
  own (add o k v) k' = if String.eqb k k' then Some v else own o k'.
Proof.
  induction o as [|[k0 v0] o IH]; simpl; [done|].
  destruct (String.eqb_spec k0 k) as [->|Hne]; [done|]. intros H.
  assert (E : own ((k0, v0) :: add o k v) k'
              = if String.eqb k k' then Some v
                else if String.eqb k0 k' then Some v0 else own o k').
  { simpl. rewrite (IH H). destruct (String.eqb_spec k k') as [E|?]; [|done].
    subst k'. by destruct (String.eqb_spec k0 k). }
  destruct (array_index k) as [n|]; [destruct (array_index k0) as [n0|]|];
    [destruct (n <? n0)%N| |]; done.
Qed.

(** After [o[k] = v], [o] holds [v] under [k] and its other own
    properties as before. *)
Lemma own_set {A} (o : t A) k v k' :
  k <> "__proto__" ->
  own (set o k v) k' = if String.eqb k k' then Some v else own o k'.
Proof.
  intros Hk. unfold set.
  destruct (String.eqb_spec k "__proto__") as [?|_]; [done|].
  destruct (has_own o k) eqn:E.
  - by rewrite own_replace, E.
  - apply own_add. unfold has_own in E. by destruct (own o k).
Qed.

End JSObjectFacts.

Lemma own_assign_all {A} (entries : list (string * A)) (o : JSObject.t A) k :
  JSObject.own (assign_all o entries) k
  = last_assigned entries k (JSObject.own o k).
Proof.
  revert o. induction entries as [|[k' v] entries IH]; intros o; [done|].
  simpl. rewrite IH. f_equal.
  destruct (String.eqb_spec k' "__proto__") as [->|Hk].
  - unfold JSObject.set. simpl. by rewrite andb_false_r.
  - rewrite JSObjectFacts.own_set by done. by rewrite andb_true_r.
Qed.

(** ** Fuel of the translation *)

Lemma Type_fromDoctrineType_S fuel type rec typedefs :
  Type_fromDoctrineType (S fuel) type rec typedefs
  = Type_fromDoctrineType_body (Type_fromDoctrineType fuel) type rec typedefs.
Proof. reflexivity. Qed.

Section Translators_extend.

Variables self self' : option doctrine_type -> Rec -> typedefs_t -> M Ty.
Hypothesis Hself : forall type rec typedefs c,
  self type rec typedefs = Some c -> self' type rec typedefs = Some c.

Lemma properties_extends rec typedefs rest record c :
  properties self rec typedefs rest record = Some c ->
  properties self' rec typedefs rest record = Some c.
Proof.
  revert record c. induction rest as [|tag rest IH]; intros record c; [auto|].
  simpl. destruct (String.eqb (title tag) "property"); [|apply IH].
  apply bind_extends; [intros a; apply Hself|]. intros type c'. apply IH.
Qed.

Lemma signature_extends rec typedefs rest returnType argumentTypes parameterTypes
    prototype c :
  signature self rec typedefs rest returnType argumentTypes parameterTypes
    prototype = Some c ->
  signature self' rec typedefs rest returnType argumentTypes parameterTypes
    prototype = Some c.
Proof.
  revert returnType argumentTypes parameterTypes prototype c.
  induction rest as [|tag rest IH];
    intros returnType argumentTypes parameterTypes prototype c; [auto|].
  simpl. destruct (_ || _).
  - apply bind_extends; [intros a; apply Hself|]. intros type c'. apply IH.
  - destruct (String.eqb (title tag) "param"); [|apply IH].
    apply bind_extends; [intros a; apply Hself|]. intros type c'. apply IH.
Qed.

Lemma RecordType_fromDoctrineType_extends type rec typedefs c :
  RecordType_fromDoctrineType self type rec typedefs = Some c ->
  RecordType_fromDoctrineType self' type rec typedefs = Some c.
Proof.
  destruct type as [[name| | | | |]|]; simpl; auto.
  destruct (String.eqb name "object"); [|auto].
  destruct (tags rec) as [all|]; [|auto].
  apply bind_extends; [intros a; apply properties_extends|].
  intros ? ?; auto.
Qed.

Lemma Type_fromDoctrineType_body_extends type rec typedefs c :
  Type_fromDoctrineType_body self type rec typedefs = Some c ->
  Type_fromDoctrineType_body self' type rec typedefs = Some c.
Proof.
  destruct type as [node|]; [|auto].
  destruct node as [name| |elements|fields|params result|other];
    unfold Type_fromDoctrineType_body; auto.
  - destruct (String.eqb name "object"); [|auto].
    apply RecordType_fromDoctrineType_extends.
  - unfold UnionType_fromDoctrineType.
    apply bind_extends; [|intros ? ?; auto].
    intros a. apply mapM_extends. intros x c'. apply Hself.
  - unfold FunctionType_fromDoctrineType.
    apply bind_extends.
    + intros a. destruct result; [apply Hself|auto].
    + intros returnType c'. apply bind_extends; [|intros ? ?; auto].
      intros a. apply mapM_extends. intros x c''. apply Hself.
Qed.

End Translators_extend.

(** More fuel changes no completion of the translation. *)
Lemma Type_fromDoctrineType_fuel fuel fuel' type rec typedefs c :
  fuel <= fuel' ->
  Type_fromDoctrineType fuel type rec typedefs = Some c ->
  Type_fromDoctrineType fuel' type rec typedefs = Some c.
Proof.
  intros Hle. revert type rec typedefs c.
  induction Hle as [|m _ IH]; [auto|]. intros type rec typedefs c H.
  apply IH in H. clear IH. revert type rec typedefs c H.
  induction m as [|m IH]; intros type rec typedefs c H; [discriminate|].
  change (Type_fromDoctrineType_body (Type_fromDoctrineType (S m))
            type rec typedefs = Some c).
  revert H. apply Type_fromDoctrineType_body_extends. exact IH.
Qed.

(** ** Typedef tags *)

(** The loop over the tags assigns, in order, the translation of each
    property tag. *)
Lemma properties_assign
    (self : option doctrine_type -> Rec -> typedefs_t -> M Ty)
    (rec : Rec) (typedefs : typedefs_t) (rest : list tag) :
  forall (types : list Ty) (record : JSObject.t Ty),
    Forall2 (fun tag type => self (tag_type tag) rec typedefs = Some (Return type))
            (property_tags rest) types ->
    properties self rec typedefs rest record
    = Some (Return (assign_all record (zip (property_keys rest) types))).
Proof.
  unfold property_keys.
  induction rest as [|tag rest IH]; intros types record H; simpl in *.
  - by inversion H.
  - destruct (String.eqb (title tag) "property"); [|by apply IH].
    inversion H as [|? type ? types' Htag Hrest]; subst. simpl.
    rewrite Htag. simpl. by apply IH.
Qed.

Lemma not_actionable t :
  actionable t = false ->
  String.eqb t "typedef" = false /\ String.eqb t "type" = false /\
  String.eqb t "return" = false /\ String.eqb t "returns" = false /\
  String.eqb t "param" = false.
Proof.
  unfold actionable. rewrite !orb_false_iff. tauto.
Qed.

(** Tags of other titles are passed over. *)
Lemma first_tag_skip fuel rec typedefs (before rest : list tag) :
  Forall (fun tag => actionable (title tag) = false) before ->
  first_tag fuel rec typedefs (before ++ rest) = first_tag fuel rec typedefs rest.
Proof.
  induction 1 as [|tag before Htag _ IH]; [done|]. simpl.
  destruct (not_actionable _ Htag) as (-> & -> & -> & -> & ->). exact IH.
Qed.

(** The shape of a typedef that is not the name expression [object] is
    translated to [Type.invalid]. *)
Lemma typedef_not_object self node rec typedefs :
  node <> DNameExpression "object" ->
  RecordType_fromDoctrineType self (Some node) rec typedefs = Some (Return Type_invalid).
Proof.
  intros H. destruct node as [name| | | | |]; try done. simpl.
  destruct (String.eqb_spec name "object") as [->|_]; done.
Qed.

(** What [Type.fromDoctrine] does when the first actionable tag is a
    typedef. *)
Lemma first_typedef fuel rec typedefs (all before after : list tag) (tag : tag) :
  tags rec = Some all ->
  all = (before ++ tag :: after)%list ->
  Forall (fun tag => actionable (title tag) = false) before ->
  title tag = "typedef" ->
  Type_fromDoctrine fuel rec typedefs =
  match RecordType_fromDoctrineType (Type_fromDoctrineType fuel)
          (tag_type tag) rec typedefs with
  | Some (Return type) =>
      Some (Return Type_any, <[to_key (tag_name tag) := type]> typedefs)
  | Some (Throw e) => Some (Throw e, typedefs)
  | None => None
  end.
Proof.
  intros Htags -> Hbefore Htitle. unfold Type_fromDoctrine. rewrite Htags.
  rewrite first_tag_skip by done. cbn [first_tag]. by rewrite Htitle.
Qed.

Lemma first_typedef_other_shape
    fuel rec typedefs (all before after : list tag) (tag : tag) node :
  tags rec = Some all ->
  all = (before ++ tag :: after)%list ->
  Forall (fun tag => actionable (title tag) = false) before ->
  title tag = "typedef" ->
  tag_type tag = Some node -> node <> DNameExpression "object" ->
  Type_fromDoctrine fuel rec typedefs
  = Some (Return Type_any, <[to_key (tag_name tag) := Type_invalid]> typedefs).
Proof.
  intros Htags Hall Hbefore Htitle Htype Hnode.
  rewrite (first_typedef fuel rec typedefs all before after tag) by done.
  rewrite Htype. by rewrite typedef_not_object.
Qed.

(** The name expression [object] reads [rec.tags]: translated with [{}],
    as [Type.fromString] and the members of a union are, it raises a
    TypeError. *)
Example object_without_tags :
  Type_fromDoctrineType 1 (Some (DNameExpression "object")) no_tags ∅
    = Some (Throw TypeError) /\
  Type_fromDoctrineType 2
    (Some (DUnionType [DNameExpression "string"; DNameExpression "object"]))
    {| tags := Some [] |} ∅
    = Some (Throw TypeError).
Proof. split; reflexivity. Qed.

(** A property tag of type [object] is translated by the loop over the
    tags it belongs to, which meets the tag again: the translation of
    [@typedef {object} T] with [@property {object} a] never completes. *)
Example property_of_type_object :
  let rec :=
    {| tags := Some [Tag "typedef" (Some "T") (Some (DNameExpression "object"));
                     Tag "property" (Some "a") (Some (DNameExpression "object"))] |} in
  forall fuel, Type_fromDoctrine fuel rec ∅ = None.
Proof.
  intros rec.
  assert (H : forall fuel,
             Type_fromDoctrineType fuel (Some (DNameExpression "object")) rec ∅
             = None).
  { induction fuel as [|fuel IH]; [reflexivity|].
    rewrite Type_fromDoctrineType_S. cbn. by rewrite IH. }
  intros fuel. cbn. by rewrite H.
Qed.

(** C6 (amended): let the first actionable tag of [rec.tags] be a typedef.
    When its shape is the name expression [object] and the property tags
    translate to [types], [Type.fromDoctrine] returns [Type.any] and the
    registry holds, under the name of the typedef, the record that the
    assignments of [types] under the names of the property tags make, whose
    own properties are the last ones assigned.  When its shape is any
    other node, the registry holds [Type.invalid] under that name. *)
Theorem C6_typedef_registers
    (fuel : nat) (rec : Rec) (typedefs : typedefs_t)
    (all before after : list tag) (tag : tag) :
  tags rec = Some all ->
  all = (before ++ tag :: after)%list ->
  Forall (fun tag => actionable (title tag) = false) before ->
  title tag = "typedef" ->
  (forall types,
     tag_type tag = Some (DNameExpression "object") ->
     Forall2 (fun tag type =>
                Type_fromDoctrineType fuel (tag_type tag) rec typedefs
                = Some (Return type))
             (property_tags all) types ->
     let entries := zip (property_keys all) types in
     Type_fromDoctrine fuel rec typedefs
     = Some (Return Type_any,
             <[to_key (tag_name tag) := RecordType (assign_all [] entries)]> typedefs) /\
     forall k, JSObject.own (assign_all [] entries) k = last_assigned entries k None) /\
  (forall node,
     tag_type tag = Some node -> node <> DNameExpression "object" ->
     Type_fromDoctrine fuel rec typedefs
     = Some (Return Type_any, <[to_key (tag_name tag) := Type_invalid]> typedefs)).
Proof.
  intros Htags Hall Hbefore Htitle. split.
  - intros types Htype Htypes. split; [|intros k; exact (own_assign_all _ [] k)].
    rewrite (first_typedef fuel rec typedefs all before after tag) by done.
    rewrite Htype. cbn [RecordType_fromDoctrineType].
    change (String.eqb "object" "object") with true. cbv iota. rewrite Htags.
    by rewrite (properties_assign _ _ _ _ types []).
  - intros node Htype Hnode.
    by apply (first_typedef_other_shape fuel rec typedefs all before after tag node).
Qed.

Lemma C6_typedef_registers_witness :
  tags Pair_rec = Some [Pair_typedef; Pair_property] /\
  title Pair_typedef = "typedef" /\
  tag_type Pair_typedef = Some (DNameExpression "object") /\
  Type_fromDoctrineType 1 (tag_type Pair_property) Pair_rec ∅
    = Some (Return Type_number) /\
  Type_fromDoctrine 1 Pair_rec ∅
    = Some (Return Type_any, <["Pair" := RecordType [("a", Type_number)]]> ∅).
Proof.
  assert (H : Type_fromDoctrineType 1 (tag_type Pair_property) Pair_rec ∅
              = Some (Return Type_number)) by reflexivity.
  do 3 (split; [reflexivity|]). split; [exact H|].
  destruct (C6_typedef_registers 1 Pair_rec ∅ [Pair_typedef; Pair_property]
              [] [Pair_property] Pair_typedef eq_refl eq_refl
              (List.Forall_nil _) eq_refl) as [Hobject _].
  destruct (Hobject [Type_number] eq_refl
              (List.Forall2_cons _ _ H (List.Forall2_nil _))) as [Hcall _].
  exact Hcall.
Defined.

(** C6 as stated fails when a property tag does not translate: for
    [@typedef {object} T] with [@property {?number} a], whose type is a
    node of a shape the translation has no case for, [Type.fromDoctrine]
    throws the error of that node; it does not return [Type.any] and
    registers nothing under [T]. *)
Lemma C6_counterexample :
  let node := DOther "NullableType" in
  let typedef := Tag "typedef" (Some "T") (Some (DNameExpression "object")) in
  let rec := {| tags := Some [typedef; Tag "property" (Some "a") (Some node)] |} in
  title typedef = "typedef" /\
  tag_type typedef = Some (DNameExpression "object") /\
  Type_fromDoctrine 1 rec ∅ = Some (Throw (DieUnknownType node), ∅) /\
  forall fuel c (typedefs' : typedefs_t),
    Type_fromDoctrine fuel rec ∅ = Some (c, typedefs') ->
    c = Throw (DieUnknownType node) /\ typedefs' !! "T" = None.
Proof.
  intros node typedef rec. do 3 (split; [reflexivity|]).
  intros [|fuel] c typedefs'; [discriminate|].
  subst typedef rec. unfold Type_fromDoctrine.
  cbn -[Type_fromDoctrineType]. rewrite Type_fromDoctrineType_S. cbn.
  intros [= <- <-]. by split.
Qed.

(** ** Properties of records *)

(** C7 (amended): [getProperty(name)] returns [Type.any] on a record that
    has no own property [name] (and none called [hasOwnProperty]) and on
    [Type.any]; it returns [Type.invalid] on a primitive, a union, a
    function and the base type; an alias returns what its target does. *)
Theorem C7_getProperty_default (name : string) :
  (forall record,
     JSObject.has_own record "hasOwnProperty" = false ->
     JSObject.has_own record name = false ->
     getProperty (RecordType record) name = Return Type_any) /\
  getProperty Type_any name = Return Type_any /\
  (forall primitive, getProperty (PrimitiveType primitive) name = Return Type_invalid) /\
  (forall union, getProperty (UnionType union) name = Return Type_invalid) /\
  (forall returnType argumentTypes parameterTypes,
     getProperty (FunctionType returnType argumentTypes parameterTypes) name
     = Return Type_invalid) /\
  getProperty Type_invalid name = Return Type_invalid /\
  (forall alias type, getProperty (AliasType alias type) name = getProperty type name).
Proof.
  repeat split. intros record Hshadow Hname. simpl. unfold hasOwnProperty.
  by rewrite Hshadow, Hname.
Qed.

Lemma C7_getProperty_default_witness :
  JSObject.has_own [("x", Type_number)] "hasOwnProperty" = false /\
  JSObject.has_own [("x", Type_number)] "y" = false /\
  getProperty (RecordType [("x", Type_number)]) "y" = Return Type_any.
Proof.
  do 2 (split; [reflexivity|]).
  apply (C7_getProperty_default "y"); reflexivity.
Defined.

(** C7 (as stated) fails on a primitive, whose [getProperty] returns
    [Type.invalid], not [Type.any]; and on a record that has an own
    property called [hasOwnProperty], whose [getProperty] raises a
    TypeError for a name it does not have. *)
Lemma C7_counterexample :
  getProperty Type_string "length" = Return Type_invalid /\
  Type_invalid <> Type_any /\
  JSObject.has_own [("hasOwnProperty", Type_boolean)] "x" = false /\
  getProperty (RecordType [("hasOwnProperty", Type_boolean)]) "x" = Throw TypeError.
Proof. repeat split; discriminate. Qed.

(** C8 (amended): the empty record is a supertype of every record, and
    of no primitive and not of [Type.any]. *)
Theorem C8_empty_record (fuel : nat) :
  (forall record,
     isSupertypeOf (S fuel) Type_object (RecordType record) = Some (Return true)) /\
  (forall primitive,
     isSupertypeOf (S fuel) Type_object (PrimitiveType primitive)
     = Some (Return false)) /\
  isSupertypeOf (S (S fuel)) Type_object Type_any = Some (Return false).
Proof. repeat split. Qed.

(** C8 (as stated) fails at the record [{a: number}]: it is not the empty
    record and the empty record is a supertype of it. *)
Lemma C8_counterexample :
  RecordType [("a", Type_number)] <> Type_object /\
  isSupertypeOf 1 Type_object (RecordType [("a", Type_number)]) = Some (Return true) /\
  ~ isSupertypeOf_is Type_object (RecordType [("a", Type_number)]) (Return false).
Proof.
  split; [discriminate|]. split; [reflexivity|]. intros H.
  assert (H' : isSupertypeOf_is Type_object (RecordType [("a", Type_number)])
                 (Return true)) by (by exists 1).
  pose proof (isSupertypeOf_is_unique _ _ _ _ H H'). discriminate.
Qed.

(** ** Nodes of an unknown shape *)

(** C9: a node whose discriminator is none of the five that
    [Type.fromDoctrineType] has a case for makes it throw the error that
    names the node; the error goes through [Type.fromDoctrine] when the
    node is the type of a [type] tag, and through the translation of a
    union or of a function type that holds the node. *)
Theorem C9_unknown_shape_throws
    (node : doctrine_type) (rec : Rec) (typedefs : typedefs_t) (fuel : nat) :
  discriminator node ∉ recognized ->
  Type_fromDoctrineType (S fuel) (Some node) rec typedefs
    = Some (Throw (DieUnknownType node)) /\
  (forall name,
     Type_fromDoctrine (S fuel)
       {| tags := Some [Tag "type" name (Some node)] |} typedefs
     = Some (Throw (DieUnknownType node), typedefs)) /\
  (forall elements,
     Type_fromDoctrineType (S (S fuel)) (Some (DUnionType (node :: elements)))
       rec typedefs
     = Some (Throw (DieUnknownType node))) /\
  (forall params,
     Type_fromDoctrineType (S (S fuel)) (Some (DFunctionType params (Some node)))
       rec typedefs
     = Some (Throw (DieUnknownType node))).
Proof.
  intros H.
  assert (E : forall rec fuel,
             Type_fromDoctrineType (S fuel) (Some node) rec typedefs
             = Some (Throw (DieUnknownType node))).
  { intros rec' fuel'.
    destruct node; try reflexivity;
      exfalso; apply H, list_elem_of_In; simpl; tauto. }
  split; [apply E|]. split; [|split].
  - intros name. unfold Type_fromDoctrine. simpl tags. cbn [first_tag].
    simpl title. simpl tag_type. cbv iota.
    change (String.eqb "type" "typedef") with false.
    change (String.eqb "type" "type") with true. cbv iota.
    by rewrite E.
  - intros elements. rewrite (Type_fromDoctrineType_S (S fuel)).
    unfold Type_fromDoctrineType_body, UnionType_fromDoctrineType.
    cbn [mapM]. by rewrite E.
  - intros params. rewrite (Type_fromDoctrineType_S (S fuel)).
    unfold Type_fromDoctrineType_body, FunctionType_fromDoctrineType.
    by rewrite E.
Qed.

Lemma C9_unknown_shape_throws_witness :
  (discriminator (DOther "NullLiteral") ∉ recognized) /\
  Type_fromDoctrineType 1 (Some (DOther "NullLiteral")) no_tags ∅
    = Some (Throw (DieUnknownType (DOther "NullLiteral"))).
Proof.
  assert (H : discriminator (DOther "NullLiteral") ∉ recognized).
  { intros H%list_elem_of_In. simpl in H.
    repeat destruct H as [H|H]; try discriminate H. exact H. }
  split; [exact H|].
  apply (C9_unknown_shape_throws (DOther "NullLiteral") no_tags ∅ 0 H).
Defined.

(** ** A typedef of another shape *)

(** The base type is a supertype of nothing, and so is its alias. *)
Lemma alias_of_invalid_isSupertypeOf name x fuel :
  isSupertypeOf (S (S fuel)) (AliasType name Type_invalid) x = Some (Return false).
Proof. reflexivity. Qed.

(** C10 (amended): let the first actionable tag of [rec.tags] be a typedef
    whose shape is a node other than the name expression [object].  Then
    [Type.fromDoctrine] returns [Type.any] and writes [Type.invalid] under
    the name of the typedef, whatever the registry held there, and leaves
    the other names as they were; from then on the translation of the name
    expression of that name is the alias of [Type.invalid], and no
    primitive.  [Type.fromDoctrineType] hands every name expression but
    [object] to this translation.  The alias is a supertype of nothing;
    its [isOfType] answers what [isSupertypeOf] of the other type answers
    for [Type.invalid], which is [true] for [Type.any]. *)
Theorem C10_typedef_of_other_shape
    (fuel : nat) (rec : Rec) (typedefs : typedefs_t)
    (all before after : list tag) (tag : tag) (node : doctrine_type) :
  tags rec = Some all ->
  all = (before ++ tag :: after)%list ->
  Forall (fun tag => actionable (title tag) = false) before ->
  title tag = "typedef" ->
  tag_type tag = Some node ->
  node <> DNameExpression "object" ->
  let name := to_key (tag_name tag) in
  let alias := AliasType name Type_invalid in
  exists typedefs' : typedefs_t,
    Type_fromDoctrine fuel rec typedefs = Some (Return Type_any, typedefs') /\
    typedefs' !! name = Some Type_invalid /\
    (forall other, other <> name -> typedefs' !! other = typedefs !! other) /\
    (forall rec', PrimitiveType_fromDoctrineType (DNameExpression name) rec' typedefs'
                  = alias) /\
    (name <> "object" ->
     forall rec' fuel',
       Type_fromDoctrineType (S fuel') (Some (DNameExpression name)) rec' typedefs'
       = Some (Return alias)) /\
    alias <> PrimitiveType name /\
    (forall x fuel', isSupertypeOf (S (S fuel')) alias x = Some (Return false)) /\
    (forall x c, isOfType_is alias x c <-> isSupertypeOf_is x Type_invalid c) /\
    isOfType_is alias Type_any (Return true).
Proof.
  intros Htags Hall Hbefore Htitle Htype Hnode name alias.
  exists (<[name := Type_invalid]> typedefs).
  split.
  { by apply (first_typedef_other_shape fuel rec typedefs all before after tag node). }
  split; [apply lookup_insert_eq|].
  split; [intros other Hother; by apply lookup_insert_ne|].
  assert (E : forall rec',
             PrimitiveType_fromDoctrineType (DNameExpression name) rec'
               (<[name := Type_invalid]> typedefs) = alias).
  { intros rec'. simpl. by rewrite lookup_insert_eq. }
  split; [exact E|]. split; [|split; [discriminate|split; [reflexivity|]]].
  - intros Hname rec' fuel'. rewrite Type_fromDoctrineType_S.
    unfold Type_fromDoctrineType_body.
    destruct (String.eqb_spec name "object") as [?|_]; [done|].
    by rewrite E.
  - split; [|by exists 3]. intros x c. split.
    + intros [[|[|fuel']] H]; try discriminate H. by exists fuel'.
    + intros [fuel' H]. by exists (S (S fuel')).
Qed.

Lemma C10_typedef_of_other_shape_witness :
  tags Id_rec = Some [Id_typedef] /\
  title Id_typedef = "typedef" /\
  tag_type Id_typedef = Some (DNameExpression "string") /\
  DNameExpression "string" <> DNameExpression "object" /\
  exists typedefs' : typedefs_t,
    Type_fromDoctrine 1 Id_rec {["Id" := Point]} = Some (Return Type_any, typedefs') /\
    typedefs' !! "Id" = Some Type_invalid /\
    forall rec', PrimitiveType_fromDoctrineType (DNameExpression "Id") rec' typedefs'
                 = AliasType "Id" Type_invalid.
Proof.
  assert (Hnode : DNameExpression "string" <> DNameExpression "object")
    by discriminate.
  do 3 (split; [reflexivity|]). split; [exact Hnode|].
  destruct (C10_typedef_of_other_shape 1 Id_rec {["Id" := Point]} [Id_typedef]
              [] [] Id_typedef (DNameExpression "string")
              eq_refl eq_refl (List.Forall_nil _) eq_refl eq_refl Hnode)
    as (typedefs' & Hcall & Hname & _ & Halias & _).
  exists typedefs'. split; [exact Hcall|]. split; [exact Hname|exact Halias].
Defined.

(** C10 as stated fails on "accepts nothing": after [@typedef {string} Id]
    the name [Id] translates to the alias of [Type.invalid], and
    [isOfType] of that alias against [Type.any] is [true].  Against
    [Type.string] the call never completes: the base [isOfType] asks the
    primitive's [isSupertypeOf], which asks the base [isOfType] again. *)
Lemma C10_counterexample :
  let alias := AliasType "Id" Type_invalid in
  (exists typedefs' : typedefs_t,
     Type_fromDoctrine 1 Id_rec ∅ = Some (Return Type_any, typedefs') /\
     Type_fromDoctrineType 1 (Some (DNameExpression "Id")) no_tags typedefs'
     = Some (Return alias)) /\
  isOfType 3 alias Type_any = Some (Return true) /\
  isOfType_diverges alias Type_string.
Proof.
  intros alias. split; [by eexists|]. split; [reflexivity|].
  assert (H : forall fuel,
             isOfType fuel Type_invalid Type_string = None /\
             isSupertypeOf fuel Type_string Type_invalid = None).
  { induction fuel as [|fuel [IH1 IH2]]; [by split|].
    rewrite isOfType_S, isSupertypeOf_S. by split. }
  intros [|fuel]; [reflexivity|]. rewrite isOfType_S. apply H.
Qed.

(** * Further properties *)

(** ** Termination on instances without base and function types *)

Lemma size_pos t : 1 <= size t.
Proof. destruct t; simpl; lia. Qed.

Lemma size_member (x : Ty) (union : list Ty) :
  x ∈ union -> size x < size (TUnion union).
Proof.
  simpl. induction 1 as [x l|x y l _ IH]; lia.
Qed.

Lemma comparable_member (x : Ty) (union : list Ty) :
  comparable (TUnion union) = true -> x ∈ union -> comparable x = true.
Proof.
  simpl. intros H. induction 1 as [x l|x y l _ IH];
    apply andb_true_iff in H as [H1 H2]; auto.
Qed.

Lemma own_keys {A} (o : JSObject.t A) (k : string) :
  k ∈ JSObject.keys o -> exists v, JSObject.own o k = Some v.
Proof.
  unfold JSObject.keys. induction o as [|[k' v] o IH]; simpl.
  - intros H. by apply elem_of_nil in H.
  - intros H. destruct (String.eqb_spec k' k) as [->|Hne]; [eauto|].
    apply elem_of_cons in H as [H|H]; [congruence|auto].
Qed.

Lemma size_own (record : JSObject.t Ty) (k : string) (v : Ty) :
  JSObject.own record k = Some v -> size v < size (TRecord record).
Proof.
  simpl. induction record as [|[k' v'] record IH]; simpl; [done|].
  destruct (String.eqb k' k); [intros [= ->]; lia|].
  intros H. apply IH in H. lia.
Qed.

Lemma comparable_own (record : JSObject.t Ty) (k : string) (v : Ty) :
  comparable (TRecord record) = true ->
  JSObject.own record k = Some v -> comparable v = true.
Proof.
  simpl. intros [_ H]%andb_true_iff. revert H.
  induction record as [|[k' v'] record IH]; simpl; [done|].
  intros [H1 H2]%andb_true_iff.
  destruct (String.eqb k' k); [intros [= ->]; done|auto].
Qed.

(** What a record without a property called [hasOwnProperty] returns
    for a name. *)
Lemma getProperty_record (record : JSObject.t Ty) (name : string) :
  comparable (TRecord record) = true ->
  exists v,
    getProperty (TRecord record) name = Return v /\
    comparable v = true /\
    size v <= size (TRecord record) /\
    (name ∈ JSObject.keys record -> size v < size (TRecord record)).
Proof.
  intros H. assert (Hshadow : JSObject.has_own record "hasOwnProperty" = false).
  { simpl in H. apply andb_true_iff in H as [H _]. by apply negb_true_iff. }
  cbn [getProperty]. unfold hasOwnProperty. rewrite Hshadow. cbn [cbind].
  unfold JSObject.has_own.
  destruct (JSObject.own record name) as [v|] eqn:E.
  - exists v. split; [done|]. split; [by eapply comparable_own|].
    apply size_own in E. split; [lia|intros _; exact E].
  - exists Type_any. split; [done|]. split; [done|].
    split; [pose proof (size_pos (TRecord record)); simpl in *; lia|].
    intros [v Hv]%own_keys. congruence.
Qed.

(** An instance that answers [instanceOf(RecordType)]: a record or the
    alias of one. *)
Lemma record_like (b : Ty) :
  instanceOf b KRecordType = true ->
  exists record,
    getPropertyNames b = JSObject.keys record /\
    (forall name, getProperty b name = getProperty (TRecord record) name) /\
    comparable b = comparable (TRecord record) /\
    size (TRecord record) <= size b.
Proof.
  destruct b as [| |p|name [| | | | |record|]| |record|]; try discriminate;
    intros _; exists record; repeat split; simpl; lia.
Qed.

Section Loops.

Context {A : Type} (f : nat -> A -> M bool).
Hypothesis f_fuel : forall n m x c, n <= m -> f n x = Some c -> f m x = Some c.

(** When the body returns a boolean at every element, with some fuel,
    the loops return one, with one amount of fuel for all. *)
Lemma every_returns (l : list A) :
  (forall x, x ∈ l -> exists n v, f n x = Some (Return v)) ->
  exists n v, every (f n) l = Some (Return v).
Proof.
  induction l as [|x l IH]; intros H; [by exists 0, true|].
  destruct (H x) as (n1 & v1 & H1); [by left|].
  destruct IH as (n2 & v2 & H2); [intros y Hy; apply H; by right|].
  exists (n1 `max` n2). cbn [every].
  rewrite (f_fuel n1 (n1 `max` n2) x _ ltac:(lia) H1). cbn [bind].
  destruct v1; [|by exists false]. exists v2. revert H2.
  apply every_extends. intros y c. apply f_fuel. lia.
Qed.

Lemma some_returns (l : list A) :
  (forall x, x ∈ l -> exists n v, f n x = Some (Return v)) ->
  exists n v, some (f n) l = Some (Return v).
Proof.
  induction l as [|x l IH]; intros H; [by exists 0, false|].
  destruct (H x) as (n1 & v1 & H1); [by left|].
  destruct IH as (n2 & v2 & H2); [intros y Hy; apply H; by right|].
  exists (n1 `max` n2). cbn [some].
  rewrite (f_fuel n1 (n1 `max` n2) x _ ltac:(lia) H1). cbn [bind].
  destruct v1; [by exists true|]. exists v2. revert H2.
  apply some_extends. intros y c. apply f_fuel. lia.
Qed.

End Loops.

(** The body of the loop over the property names of two records. *)
Lemma properties_return
    (call : nat -> Ty -> Ty -> M bool) (this otherType : Ty) (names : list string) :
  (forall n m x y c, n <= m -> call n x y = Some c -> call m x y = Some c) ->
  (forall name, name ∈ names ->
     exists mine theirs,
       getProperty this name = Return mine /\
       getProperty otherType name = Return theirs /\
       exists n v, call n mine theirs = Some (Return v)) ->
  exists n v,
    every (fun name =>
             let* mine := lift (getProperty this name) in
             let* theirs := lift (getProperty otherType name) in
             call n mine theirs) names = Some (Return v).
Proof.
  intros Hfuel H.
  apply (every_returns
           (fun n name =>
              let* mine := lift (getProperty this name) in
              let* theirs := lift (getProperty otherType name) in
              call n mine theirs)).
  - intros n m name c Hle.
    apply bind_extends; [auto|]. intros mine c1.
    apply bind_extends; [auto|]. intros theirs c2. by apply Hfuel.
  - intros name Hname.
    destruct (H name Hname) as (mine & theirs & -> & -> & n & v & Hcall).
    by exists n, v.
Qed.

Lemma comparable_total_aux (n : nat) :
  forall a b,
    size a + size b <= n -> comparable a = true -> comparable b = true ->
    (exists fuel v, isOfType fuel a b = Some (Return v)) /\
    (exists fuel v, isSupertypeOf fuel a b = Some (Return v)).
Proof.
  induction n as [|n IH]; intros a b Hsize Ha Hb.
  { pose proof (size_pos a). lia. }
  assert (IHo : forall x y, size x + size y <= n ->
                  comparable x = true -> comparable y = true ->
                  exists fuel v, isOfType fuel x y = Some (Return v))
    by (intros; by apply IH).
  assert (IHs : forall x y, size x + size y <= n ->
                  comparable x = true -> comparable y = true ->
                  exists fuel v, isSupertypeOf fuel x y = Some (Return v))
    by (intros; by apply IH).
  clear IH.
  (* what the other operand answers to a primitive or a record [a] that
     hands the question over *)
  assert (Hover : forall a, size a + size b <= S n -> comparable a = true ->
            (instanceOf a KPrimitiveType = true \/ instanceOf a KRecordType = true) ->
            (instanceOf a KPrimitiveType = true -> instanceOf b KPrimitiveType = false) ->
            (instanceOf a KRecordType = true ->
               instanceOf b KPrimitiveType = false /\ instanceOf b KRecordType = false) ->
            (exists fuel v, isSupertypeOf fuel b a = Some (Return v)) /\
            (exists fuel v, isOfType fuel b a = Some (Return v))).
  { clear a Hsize Ha. intros a Hsize Ha Hkind Hp Hr.
    destruct b as [| |q|name type|union|record|]; try discriminate.
    - split; [by exists 1, true | by exists 1, (is_Type_any a)].
    - destruct Hkind as [Hk|Hk]; [specialize (Hp Hk); discriminate|].
      destruct (Hr Hk) as [? _]. discriminate.
    - simpl in Hsize, Hb. split.
      + destruct (IHs type a) as (fuel & v & H); [lia|done|done|].
        by exists (S fuel), v.
      + destruct (IHo type a) as (fuel & v & H); [lia|done|done|].
        by exists (S fuel), v.
    - split.
      + destruct (some_returns (fun fuel type => isSupertypeOf fuel type a)) with (l := union)
          as (fuel & v & H).
        * intros k m x c. apply isSupertypeOf_fuel.
        * intros x Hx. apply IHs; [|by eapply comparable_member|done].
          apply size_member in Hx. lia.
        * by exists (S fuel), v.
      + destruct (every_returns (fun fuel type => isOfType fuel type a)) with (l := union)
          as (fuel & v & H).
        * intros k m x c. apply isOfType_fuel.
        * intros x Hx. apply IHo; [|by eapply comparable_member|done].
          apply size_member in Hx. lia.
        * by exists (S fuel), v.
    - destruct Hkind as [Hk|Hk].
      + split; exists 1, false; rewrite ?isSupertypeOf_S, ?isOfType_S; by rewrite Hk.
      + destruct (Hr Hk) as [_ ?]. discriminate. }
  destruct a as [| |p|name type|union|record|]; try discriminate.
  - (* Type.any *)
    split; [by exists 1, (is_Type_any b) | by exists 1, true].
  - (* a primitive *)
    destruct (instanceOf b KPrimitiveType) eqn:Eb.
    + split; eexists 1, _; rewrite ?isSupertypeOf_S, ?isOfType_S; by rewrite Eb.
    + destruct (Hover (TPrimitive p)) as [(fs & vs & Hs) (fo & vo & Ho)];
        [done|done|by left|done|discriminate|].
      split.
      * exists (S fs), vs. rewrite isOfType_S. by rewrite Eb.
      * exists (S fo), vo. rewrite isSupertypeOf_S. by rewrite Eb.
  - (* an alias *)
    simpl in Hsize, Ha. split.
    + destruct (IHo type b) as (fuel & v & H); [lia|done|done|]. by exists (S fuel), v.
    + destruct (IHs type b) as (fuel & v & H); [lia|done|done|]. by exists (S fuel), v.
  - (* a union *)
    split.
    + destruct (every_returns (fun fuel type => isOfType fuel type b)) with (l := union)
        as (fuel & v & H).
      * intros k m x c. apply isOfType_fuel.
      * intros x Hx. apply IHo; [|by eapply comparable_member|done].
        apply size_member in Hx. lia.
      * by exists (S fuel), v.
    + destruct (some_returns (fun fuel type => isSupertypeOf fuel type b)) with (l := union)
        as (fuel & v & H).
      * intros k m x c. apply isSupertypeOf_fuel.
      * intros x Hx. apply IHs; [|by eapply comparable_member|done].
        apply size_member in Hx. lia.
      * by exists (S fuel), v.
  - (* a record *)
    destruct (instanceOf b KPrimitiveType) eqn:Ep.
    { split; exists 1, false; rewrite ?isSupertypeOf_S, ?isOfType_S; by rewrite Ep. }
    destruct (instanceOf b KRecordType) eqn:Er.
    + destruct (record_like b Er) as (other & Hnames & Hget & Hcomp & Hsz).
      rewrite Hcomp in Hb. split.
      * destruct (properties_return isOfType (TRecord record) b (getPropertyNames b))
          as (fuel & v & H).
        -- intros k m x y c. apply isOfType_fuel.
        -- intros name Hname. rewrite Hnames in Hname.
           destruct (getProperty_record record name Ha) as (mine & Hm & Hcm & Hsm & _).
           destruct (getProperty_record other name Hb) as (theirs & Ht & Hct & _ & Hst).
           exists mine, theirs. rewrite Hget. split; [done|]. split; [done|].
           apply IHo; [|done|done]. specialize (Hst Hname). lia.
        -- exists (S fuel), v. rewrite isOfType_S. by rewrite Ep, Er.
      * destruct (properties_return isSupertypeOf (TRecord record) b
                    (getPropertyNames (TRecord record)))
          as (fuel & v & H).
        -- intros k m x y c. apply isSupertypeOf_fuel.
        -- intros name Hname. cbn [getPropertyNames] in Hname.
           destruct (getProperty_record record name Ha) as (mine & Hm & Hcm & _ & Hsm).
           destruct (getProperty_record other name Hb) as (theirs & Ht & Hct & Hst & _).
           exists mine, theirs. rewrite Hget. split; [done|]. split; [done|].
           apply IHs; [|done|done]. specialize (Hsm Hname). lia.
        -- exists (S fuel), v. rewrite isSupertypeOf_S. by rewrite Ep, Er.
    + destruct (Hover (TRecord record)) as [(fs & vs & Hs) (fo & vo & Ho)];
        [done|done|by right|discriminate|done|].
      split.
      * exists (S fs), vs. rewrite isOfType_S. by rewrite Ep, Er.
      * exists (S fo), vo. rewrite isSupertypeOf_S. by rewrite Ep, Er.
Qed.

(** X1: on instances made of [Type.any], primitives, aliases, unions and
    records without a property called [hasOwnProperty], [isOfType] and
    [isSupertypeOf] complete, and with a boolean. *)
Theorem comparable_total (a b : Ty) :
  comparable a = true -> comparable b = true ->
  (exists v, isOfType_is a b (Return v)) /\
  (exists v, isSupertypeOf_is a b (Return v)).
Proof.
  intros Ha Hb.
  destruct (comparable_total_aux (size a + size b) a b (le_n _) Ha Hb)
    as [(fo & vo & Ho) (fs & vs & Hs)].
  split; [exists vo; by exists fo | exists vs; by exists fs].
Qed.

(** ** [isOfType] as the converse of [isSupertypeOf] *)

Section Transfer.

Context {A : Type} (g : nat -> A -> M bool).
Hypothesis g_fuel : forall n m x c, n <= m -> g n x = Some c -> g m x = Some c.

(** A loop whose body completes as [g] does, with some fuel, completes
    as the loop of [g] does, with some fuel. *)
Lemma every_transfer (f : A -> M bool) (l : list A) (c : completion bool) :
  (forall x c, x ∈ l -> f x = Some c -> exists n, g n x = Some c) ->
  every f l = Some c -> exists n, every (g n) l = Some c.
Proof.
  revert c. induction l as [|x l IH]; intros c H; [by exists 0|].
  cbn [every]. unfold bind at 1.
  destruct (f x) as [[b|e]|] eqn:E; [| |discriminate].
  - destruct (H x _ ltac:(by left) E) as [n1 H1]. destruct b.
    + intros Hl. destruct (IH c) as [n2 H2]; [intros y c' Hy; apply H; by right|done|].
      exists (n1 `max` n2). cbn [every].
      rewrite (g_fuel n1 (n1 `max` n2) x _ ltac:(lia) H1). cbn [bind].
      revert H2. apply every_extends. intros y c'. apply g_fuel. lia.
    + intros <-. exists n1. cbn [every]. by rewrite H1.
  - destruct (H x _ ltac:(by left) E) as [n1 H1].
    intros <-. exists n1. cbn [every]. by rewrite H1.
Qed.

Lemma some_transfer (f : A -> M bool) (l : list A) (c : completion bool) :
  (forall x c, x ∈ l -> f x = Some c -> exists n, g n x = Some c) ->
  some f l = Some c -> exists n, some (g n) l = Some c.
Proof.
  revert c. induction l as [|x l IH]; intros c H; [by exists 0|].
  cbn [some]. unfold bind at 1.
  destruct (f x) as [[b|e]|] eqn:E; [| |discriminate].
  - destruct (H x _ ltac:(by left) E) as [n1 H1]. destruct b.
    + intros <-. exists n1. cbn [some]. by rewrite H1.
    + intros Hl. destruct (IH c) as [n2 H2]; [intros y c' Hy; apply H; by right|done|].
      exists (n1 `max` n2). cbn [some].
      rewrite (g_fuel n1 (n1 `max` n2) x _ ltac:(lia) H1). cbn [bind].
      revert H2. apply some_extends. intros y c'. apply g_fuel. lia.
  - destruct (H x _ ltac:(by left) E) as [n1 H1].
    intros <-. exists n1. cbn [some]. by rewrite H1.
Qed.

End Transfer.

(** [getProperty] raises nothing but a TypeError. *)
Lemma getProperty_throws (t : Ty) (name : string) (e : exn) :
  getProperty t name = Throw e -> e = TypeError.
Proof.
  induction t as [| |p|alias type IH|union _|record _|r a ps pr _ _ _ _] using Ty_ind;
    cbn [getProperty]; try discriminate; [exact IH|].
  unfold hasOwnProperty.
  destruct (JSObject.has_own record "hasOwnProperty"); cbn [cbind].
  - congruence.
  - by destruct (JSObject.has_own record name).
Qed.

Lemma structural_own (record : JSObject.t Ty) (k : string) (v : Ty) :
  structural (TRecord record) = true ->
  JSObject.own record k = Some v -> structural v = true.
Proof.
  cbn [structural]. induction record as [|[k' v'] record IH]; simpl; [done|].
  intros [H1 H2]%andb_true_iff.
  destruct (String.eqb k' k); [intros [= ->]; done|auto].
Qed.

Lemma getProperty_structural (record : JSObject.t Ty) (name : string) (v : Ty) :
  structural (TRecord record) = true ->
  getProperty (TRecord record) name = Return v -> structural v = true.
Proof.
  intros H. cbn [getProperty]. unfold hasOwnProperty.
  destruct (JSObject.has_own record "hasOwnProperty"); cbn [cbind]; [discriminate|].
  unfold JSObject.has_own.
  destruct (JSObject.own record name) as [w|] eqn:E; intros [= <-]; [|done].
  by eapply structural_own.
Qed.

Lemma strict_eq_sym a b : strict_eq a b = strict_eq b a.
Proof.
  destruct a as [x|], b as [y|]; simpl; try done. apply String.eqb_sym.
Qed.

Lemma converse_aux (fuel : nat) :
  forall a b c, structural a = true -> structural b = true ->
    (isOfType fuel a b = Some c -> exists n, isSupertypeOf n b a = Some c) /\
    (isSupertypeOf fuel b a = Some c -> exists n, isOfType n a b = Some c).
Proof.
  induction fuel as [|fuel IH]; intros a b c Ha Hb; [split; discriminate|].
  rewrite isOfType_S, isSupertypeOf_S.
  destruct a as [| |p| | |ra|]; try discriminate;
    destruct b as [| |q| | |rb|]; try discriminate;
    cbn [instanceOf instanceof negb];
    try (split; [intros H; by exists fuel | intros H; by exists (S (S fuel))]);
    try (split; [intros H; by exists (S (S fuel)) | intros H; by exists fuel]).
  - (* any, base *) unfold ret. split; intros [= <-]; by exists 1.
  - (* any, any *) unfold ret. split; intros [= <-]; by exists 1.
  - (* primitive, primitive *)
    unfold ret. split; intros [= <-]; exists 1; cbn; unfold ret;
      do 2 f_equal; apply String.eqb_sym.
  - (* record, record *)
    cbn [getPropertyNames]. split; intros H.
    + eapply (every_transfer
                (fun n name =>
                   let* mine := lift (getProperty (TRecord rb) name) in
                   let* theirs := lift (getProperty (TRecord ra) name) in
                   isSupertypeOf n mine theirs)) in H.
      * destruct H as [n H]. exists (S n). by rewrite isSupertypeOf_S.
      * intros n m name c' Hle.
        apply bind_extends; [auto|]. intros mine c1.
        apply bind_extends; [auto|]. intros theirs c2. by apply isSupertypeOf_fuel.
      * intros name c' _. unfold lift, bind.
        destruct (getProperty (TRecord ra) name) as [x|e] eqn:Ea;
          destruct (getProperty (TRecord rb) name) as [y|e'] eqn:Eb.
        -- apply (IH x y c');
             [exact (getProperty_structural ra name x Ha Ea)
             |exact (getProperty_structural rb name y Hb Eb)].
        -- intros [= <-]. by exists 0.
        -- intros [= <-]. by exists 0.
        -- apply getProperty_throws in Ea, Eb. subst. intros [= <-]. by exists 0.
    + eapply (every_transfer
                (fun n name =>
                   let* mine := lift (getProperty (TRecord ra) name) in
                   let* theirs := lift (getProperty (TRecord rb) name) in
                   isOfType n mine theirs)) in H.
      * destruct H as [n H]. exists (S n). by rewrite isOfType_S.
      * intros n m name c' Hle.
        apply bind_extends; [auto|]. intros mine c1.
        apply bind_extends; [auto|]. intros theirs c2. by apply isOfType_fuel.
      * intros name c' _. unfold lift, bind.
        destruct (getProperty (TRecord ra) name) as [x|e] eqn:Ea;
          destruct (getProperty (TRecord rb) name) as [y|e'] eqn:Eb.
        -- apply (IH x y c');
             [exact (getProperty_structural ra name x Ha Ea)
             |exact (getProperty_structural rb name y Hb Eb)].
        -- intros [= <-]. by exists 0.
        -- intros [= <-]. by exists 0.
        -- apply getProperty_throws in Ea, Eb. subst. intros [= <-]. by exists 0.
Qed.

(** X2: on instances made of the base type, [Type.any], primitives and
    records, [a.isOfType(b)] completes exactly as [b.isSupertypeOf(a)]
    does. *)
Theorem isOfType_converse (a b : Ty) (c : completion bool) :
  structural a = true -> structural b = true ->
  (isOfType_is a b c <-> isSupertypeOf_is b a c).
Proof.
  intros Ha Hb. split; intros [fuel H];
    by apply (converse_aux fuel a b c Ha Hb) in H.
Qed.

(** ** An alias as the other operand *)

Lemma every_ext {A} (f g : A -> M bool) (l : list A) :
  (forall x, f x = g x) -> every f l = every g l.
Proof.
  intros H. induction l as [|x l IH]; [done|]. cbn [every]. rewrite H.
  unfold bind. destruct (g x) as [[[]|]|]; auto.
Qed.

Section Argument.

(** Two instances that answer alike as the other operand. *)
Variables A R : Ty.
Hypothesis Hany : is_Type_any A = is_Type_any R.
Hypothesis Hkind : forall k, instanceOf A k = instanceOf R k.
Hypothesis Hprimitive : getPrimitive A = getPrimitive R.
Hypothesis Hnames : getPropertyNames A = getPropertyNames R.
Hypothesis Hget : forall name, getProperty A name = getProperty R name.
Hypothesis HisOfType :
  forall n y c, isOfType n A y = Some c -> exists m, isOfType m R y = Some c.
Hypothesis HisSupertypeOf :
  forall n y c, isSupertypeOf n A y = Some c -> exists m, isSupertypeOf m R y = Some c.

Lemma argument_transfer (fuel : nat) :
  forall x c,
    (isOfType fuel x A = Some c -> exists m, isOfType m x R = Some c) /\
    (isSupertypeOf fuel x A = Some c -> exists m, isSupertypeOf m x R = Some c).
Proof.
  induction fuel as [|fuel IH]; intros x c; [split; discriminate|].
  rewrite isOfType_S, isSupertypeOf_S.
  assert (Hdelegate_s : forall t,
            isSupertypeOf fuel A t = Some c ->
            (forall n, isOfType (S n) t R = isSupertypeOf n R t) ->
            exists m, isOfType m t R = Some c).
  { intros t H E. destruct (HisSupertypeOf _ _ _ H) as [m Hm].
    exists (S m). by rewrite E. }
  assert (Hdelegate_o : forall t,
            isOfType fuel A t = Some c ->
            (forall n, isSupertypeOf (S n) t R = isOfType n R t) ->
            exists m, isSupertypeOf m t R = Some c).
  { intros t H E. destruct (HisOfType _ _ _ H) as [m Hm].
    exists (S m). by rewrite E. }
  destruct x as [| |p|name type|union|record|r a ps pr].
  - split; [intros H; by apply Hdelegate_s | intros H; by exists 1].
  - split; intros H; exists 1; [by rewrite isOfType_S, <- Hany | done].
  - rewrite Hkind, Hprimitive.
    destruct (instanceOf R KPrimitiveType) eqn:E; split; intros H.
    + exists 1. by rewrite isOfType_S, E.
    + exists 1. by rewrite isSupertypeOf_S, E.
    + apply Hdelegate_s; [done|]. intros n. by rewrite isOfType_S, E.
    + apply Hdelegate_o; [done|]. intros n. by rewrite isSupertypeOf_S, E.
  - split; intros H; apply IH in H as [m H]; by exists (S m).
  - split; intros H.
    + apply (every_transfer (fun n type => isOfType n type R)) in H.
      * destruct H as [m H]. by exists (S m).
      * intros n m y c'. apply isOfType_fuel.
      * intros y c' _. apply IH.
    + apply (some_transfer (fun n type => isSupertypeOf n type R)) in H.
      * destruct H as [m H]. by exists (S m).
      * intros n m y c'. apply isSupertypeOf_fuel.
      * intros y c' _. apply IH.
  - rewrite !Hkind, Hnames.
    destruct (instanceOf R KPrimitiveType) eqn:Ep.
    { split; intros H; exists 1;
        rewrite ?isOfType_S, ?isSupertypeOf_S; by rewrite Ep. }
    destruct (instanceOf R KRecordType) eqn:Er; cbn [negb]; split; intros H.
    + exists (S fuel). rewrite isOfType_S, Ep, Er. cbn [negb]. rewrite <- H.
      apply every_ext. intros name. by rewrite Hget.
    + exists (S fuel). rewrite isSupertypeOf_S, Ep, Er. cbn [negb]. rewrite <- H.
      apply every_ext. intros name. by rewrite Hget.
    + apply Hdelegate_s; [done|]. intros n. by rewrite isOfType_S, Ep, Er.
    + apply Hdelegate_o; [done|]. intros n. by rewrite isSupertypeOf_S, Ep, Er.
  - split; [intros H; by apply Hdelegate_s | intros H; by exists 1].
Qed.

End Argument.

(** X3: the alias of a target that is neither [Type.any], a primitive
    nor an alias (a registered typedef is a record or the base type) can
    stand for its target as the other operand: [x.isOfType] and
    [x.isSupertypeOf] complete on the alias exactly as on the target. *)
Theorem alias_as_other_operand (name : string) (target x : Ty) (c : completion bool) :
  transparent_target target = true ->
  (isOfType_is x (AliasType name target) c <-> isOfType_is x target c) /\
  (isSupertypeOf_is x (AliasType name target) c <-> isSupertypeOf_is x target c).
Proof.
  intros Htarget.
  assert (Hto : forall fuel x c,
            (isOfType fuel x (AliasType name target) = Some c ->
             exists m, isOfType m x target = Some c) /\
            (isSupertypeOf fuel x (AliasType name target) = Some c ->
             exists m, isSupertypeOf m x target = Some c)).
  { intros fuel. apply argument_transfer.
    - by destruct target.
    - intros k. by destruct target.
    - by destruct target.
    - done.
    - done.
    - intros [|n] y c' H; [discriminate|]. by exists n.
    - intros [|n] y c' H; [discriminate|]. by exists n. }
  assert (Hfrom : forall fuel x c,
            (isOfType fuel x target = Some c ->
             exists m, isOfType m x (AliasType name target) = Some c) /\
            (isSupertypeOf fuel x target = Some c ->
             exists m, isSupertypeOf m x (AliasType name target) = Some c)).
  { intros fuel. apply argument_transfer.
    - by destruct target.
    - intros k. by destruct target.
    - by destruct target.
    - done.
    - done.
    - intros n y c' H. by exists (S n).
    - intros n y c' H. by exists (S n). }
  split; split; intros [fuel H].
  - by apply Hto in H.
  - by apply Hfrom in H.
  - by apply Hto in H.
  - by apply Hfrom in H.
Qed.

(** ** Reflexivity *)

Lemma every_all_true {A} (f : nat -> A -> M bool) (l : list A) :
  (forall n m x c, n <= m -> f n x = Some c -> f m x = Some c) ->
  (forall x, x ∈ l -> exists n, f n x = Some (Return true)) ->
  exists n, every (f n) l = Some (Return true).
Proof.
  intros Hfuel. induction l as [|x l IH]; intros H; [by exists 0|].
  destruct (H x) as [n1 H1]; [by left|].
  destruct IH as [n2 H2]; [intros y Hy; apply H; by right|].
  exists (n1 `max` n2). cbn [every].
  rewrite (Hfuel n1 (n1 `max` n2) x _ ltac:(lia) H1). cbn [bind].
  revert H2. apply every_extends. intros y c. apply Hfuel. lia.
Qed.

Lemma own_Forall {A} (P : A -> Prop) (o : JSObject.t A) (k : string) (v : A) :
  Forall (fun entry => P entry.2) o -> JSObject.own o k = Some v -> P v.
Proof.
  induction 1 as [|[k' v'] o Hv _ IH]; simpl; [done|].
  destruct (String.eqb k' k); [intros [= <-]; exact Hv|exact IH].
Qed.

Lemma isSupertypeOf_reflexive (t : Ty) :
  structural t = true -> comparable t = true ->
  isSupertypeOf_is t t (Return true).
Proof.
  induction t as [| |p|name type _|union _|record IH|r a ps pr _ _ _ _] using Ty_ind;
    try discriminate; intros Hs Hc.
  - by exists 1.
  - exists 1. cbn. by rewrite String.eqb_refl.
  - destruct (every_all_true
                (fun n name =>
                   let* mine := lift (getProperty (TRecord record) name) in
                   let* theirs := lift (getProperty (TRecord record) name) in
                   isSupertypeOf n mine theirs) (JSObject.keys record))
      as [n Hn].
    + intros n m name c Hle.
      apply bind_extends; [auto|]. intros mine c1.
      apply bind_extends; [auto|]. intros theirs c2. by apply isSupertypeOf_fuel.
    + intros name [v Hv]%own_keys.
      destruct (getProperty_record record name Hc) as (w & Hw & _).
      assert (w = v) as ->.
      { revert Hw. cbn [getProperty]. unfold hasOwnProperty, JSObject.has_own.
        destruct (JSObject.own record "hasOwnProperty"); cbn [cbind]; [discriminate|].
        rewrite Hv. cbn. congruence. }
      pose proof (own_Forall
                    (fun t => structural t = true -> comparable t = true ->
                              isSupertypeOf_is t t (Return true))
                    record name v IH Hv) as Hrefl.
      destruct Hrefl as [n Hn].
      * by eapply structural_own.
      * by eapply comparable_own.
      * exists n. rewrite Hw. exact Hn.
    + by exists (S n).
Qed.

(** X4: an instance made of [Type.any], primitives and records without
    a property called [hasOwnProperty] is a supertype of itself and of its
    own type. *)
Theorem reflexive_on_records (t : Ty) :
  structural t = true -> comparable t = true ->
  isSupertypeOf_is t t (Return true) /\ isOfType_is t t (Return true).
Proof.
  intros Hs Hc. pose proof (isSupertypeOf_reflexive t Hs Hc) as [fuel H].
  split; [by exists fuel|]. by apply (converse_aux fuel t t _ Hs Hs) in H.
Qed.

(** X5: the union of two primitives of different names is of its own
    type, yet it is no supertype of itself. *)
Theorem union_not_reflexive (p q : string) :
  strip p <> strip q ->
  let U := UnionType [PrimitiveType p; PrimitiveType q] in
  isOfType_is U U (Return true) /\ isSupertypeOf_is U U (Return false).
Proof.
  intros Hne U.
  assert (Epq : String.eqb (strip p) (strip q) = false) by by apply String.eqb_neq.
  assert (Eqp : String.eqb (strip q) (strip p) = false)
    by (apply String.eqb_neq; congruence).
  split; exists 4; cbn; by rewrite ?String.eqb_refl, ?Epq, ?Eqp.
Qed.

(** ** Primitives and records *)

(** X6: an instance that answers [instanceOf(PrimitiveType)] (a
    primitive or the alias of one) and an instance that answers
    [instanceOf(RecordType)] (a record or the alias of one) are never
    related: each of the four calls between them returns [false]. *)
Theorem primitive_and_record (P R : Ty) (fuel : nat) :
  instanceOf P KPrimitiveType = true ->
  instanceOf R KRecordType = true ->
  isOfType (S (S (S (S fuel)))) P R = Some (Return false) /\
  isSupertypeOf (S (S (S (S fuel)))) P R = Some (Return false) /\
  isOfType (S (S (S (S fuel)))) R P = Some (Return false) /\
  isSupertypeOf (S (S (S (S fuel)))) R P = Some (Return false).
Proof.
  intros HP HR.
  destruct P as [| |p|? [| |p| | | |]| | |]; try discriminate;
    destruct R as [| | |? [| | | | |record|]| |record|]; try discriminate;
    repeat split.
Qed.

Lemma primitive_fields_own (record : JSObject.t Ty) (k : string) (v : Ty) :
  primitive_fields record = true -> JSObject.own record k = Some v ->
  exists p, v = TPrimitive p.
Proof.
  intros [_ H]%andb_true_iff. revert H.
  induction record as [|[k' v'] record IH]; simpl; [done|].
  intros [H1 H2]%andb_true_iff.
  destruct (String.eqb k' k); [|auto]. intros [= <-].
  destruct v'; try discriminate. eauto.
Qed.

Lemma primitive_fields_getProperty (record : JSObject.t Ty) (name : string) :
  primitive_fields record = true ->
  getProperty (TRecord record) name
  = Return (default Type_any (JSObject.own record name)).
Proof.
  intros [H _]%andb_true_iff. apply negb_true_iff in H.
  cbn [getProperty]. unfold hasOwnProperty. rewrite H. cbn [cbind].
  unfold JSObject.has_own. by destruct (JSObject.own record name).
Qed.

Lemma primitive_records_loop (ra rb : JSObject.t Ty) (fuel : nat) (names : list string) :
  primitive_fields ra = true -> primitive_fields rb = true ->
  (forall k, k ∈ names -> k ∈ JSObject.keys ra) ->
  every (fun name =>
           let* mine := lift (getProperty (TRecord ra) name) in
           let* theirs := lift (getProperty (TRecord rb) name) in
           isSupertypeOf (S (S fuel)) mine theirs) names
  = Some (Return (forallb (fun k => same_primitive (JSObject.own ra k)
                                      (JSObject.own rb k)) names)).
Proof.
  intros Ha Hb. induction names as [|k names IH]; intros Hin; [done|].
  cbn [every forallb]. rewrite !primitive_fields_getProperty by done.
  destruct (own_keys ra k) as [v Hv]; [apply Hin; by left|].
  destruct (primitive_fields_own ra k v Ha Hv) as [p ->]. rewrite Hv.
  cbn [lift bind default].
  destruct (JSObject.own rb k) as [w|] eqn:Hw.
  - destruct (primitive_fields_own rb k w Hb Hw) as [q ->].
    cbn [default same_primitive]. rewrite isSupertypeOf_S. cbn.
    destruct (String.eqb p q); [|done].
    apply IH. intros k' Hk'. apply Hin. by right.
  - cbn. done.
Qed.

(** X7: between records whose properties hold primitives, [isSupertypeOf]
    returns whether the other record has every property of this one, with
    the same primitive; what else the other record has is not looked at. *)
Theorem record_of_primitives_isSupertypeOf (ra rb : JSObject.t Ty) (fuel : nat) :
  primitive_fields ra = true -> primitive_fields rb = true ->
  exists v,
    isSupertypeOf (S (S (S fuel))) (RecordType ra) (RecordType rb) = Some (Return v) /\
    (v = true <->
     forall k p, JSObject.own ra k = Some (TPrimitive p) ->
                 JSObject.own rb k = Some (TPrimitive p)).
Proof.
  intros Ha Hb. eexists. split.
  - rewrite isSupertypeOf_S. cbn [RecordType instanceOf instanceof negb getPropertyNames].
    by apply (primitive_records_loop ra rb fuel).
  - rewrite forallb_forall. split.
    + intros H k p Hk.
      assert (Hin : In k (JSObject.keys ra)).
      { apply list_elem_of_In. unfold JSObject.keys.
        clear -Hk. induction ra as [|[k' v'] ra IH]; simpl in *; [done|].
        destruct (String.eqb_spec k' k) as [->|_]; [by left|right; auto]. }
      specialize (H k Hin). rewrite Hk in H. cbn in H.
      destruct (JSObject.own rb k) as [[]|]; try discriminate.
      apply String.eqb_eq in H. by subst.
    + intros H k Hin. apply list_elem_of_In, own_keys in Hin as [v Hv].
      destruct (primitive_fields_own ra k v Ha Hv) as [p ->].
      rewrite Hv, (H k p Hv). cbn. apply String.eqb_refl.
Qed.

(** ** Unions of any number of members *)

Lemma union_every (call : nat -> Ty -> M bool) (union : list Ty) (bs : list bool) :
  (forall n m x c, n <= m -> call n x = Some c -> call m x = Some c) ->
  Forall2 (fun type b => exists n, call n type = Some (Return b)) union bs ->
  exists n, every (call n) union = Some (Return (forallb id bs)).
Proof.
  intros Hfuel. induction 1 as [|type b union bs [n1 H1] _ [n2 H2]]; [by exists 0|].
  exists (n1 `max` n2). cbn [every forallb].
  rewrite (Hfuel n1 (n1 `max` n2) type _ ltac:(lia) H1). cbn [bind id].
  destruct b; [|done]. revert H2. apply every_extends.
  intros y c. apply Hfuel. lia.
Qed.

Lemma union_some (call : nat -> Ty -> M bool) (union : list Ty) (bs : list bool) :
  (forall n m x c, n <= m -> call n x = Some c -> call m x = Some c) ->
  Forall2 (fun type b => exists n, call n type = Some (Return b)) union bs ->
  exists n, some (call n) union = Some (Return (existsb id bs)).
Proof.
  intros Hfuel. induction 1 as [|type b union bs [n1 H1] _ [n2 H2]]; [by exists 0|].
  exists (n1 `max` n2). cbn [some existsb].
  rewrite (Hfuel n1 (n1 `max` n2) type _ ltac:(lia) H1). cbn [bind id].
  destruct b; [done|]. revert H2. apply some_extends.
  intros y c. apply Hfuel. lia.
Qed.

(** X8: when the members of a union return the booleans [bs] for [x],
    the union's [isOfType(x)] returns their conjunction and its
    [isSupertypeOf(x)] their disjunction; so the union of no member is of
    every type and a supertype of none. *)
Theorem union_of_members (union : list Ty) (x : Ty) :
  (forall bs,
     Forall2 (fun type b => isOfType_is type x (Return b)) union bs ->
     isOfType_is (UnionType union) x (Return (forallb id bs))) /\
  (forall bs,
     Forall2 (fun type b => isSupertypeOf_is type x (Return b)) union bs ->
     isSupertypeOf_is (UnionType union) x (Return (existsb id bs))) /\
  isOfType_is (UnionType []) x (Return true) /\
  isSupertypeOf_is (UnionType []) x (Return false).
Proof.
  split; [|split; [|split; by exists 1]].
  - intros bs H.
    destruct (union_every (fun n type => isOfType n type x) union bs) as [n Hn].
    + intros n m y c. apply isOfType_fuel.
    + done.
    + by exists (S n).
  - intros bs H.
    destruct (union_some (fun n type => isSupertypeOf n type x) union bs) as [n Hn].
    + intros n m y c. apply isSupertypeOf_fuel.
    + done.
    + by exists (S n).
Qed.

(** ** What [strip] leaves *)

Lemma strip_app (s1 s2 : string) : strip (s1 ++ s2) = strip s1 ++ strip s2.
Proof.
  induction s1 as [|c s1 IH]; simpl; [done|].
  destruct (is_space c); simpl; by rewrite IH.
Qed.

Lemma strip_no_space (s : string) :
  Forall (fun c => is_space c = false) (list_ascii_of_string (strip s)).
Proof.
  induction s as [|c s IH]; simpl; [constructor|].
  destruct (is_space c) eqn:E; [done|]. simpl. by constructor.
Qed.

Lemma strip_fixed (s : string) :
  Forall (fun c => is_space c = false) (list_ascii_of_string s) -> strip s = s.
Proof.
  induction s as [|c s IH]; simpl; [done|].
  intros H. inversion H as [|? ? Hc Hs]; subst. rewrite Hc. f_equal. auto.
Qed.

Lemma strip_filter (s : string) :
  list_ascii_of_string (strip s)
  = List.filter (fun c => negb (is_space c)) (list_ascii_of_string s).
Proof.
  induction s as [|c s IH]; simpl; [done|].
  destruct (is_space c); simpl; by rewrite IH.
Qed.

Lemma is_space_codes (c : ascii) :
  is_space c = true <-> In (nat_of_ascii c) [9; 10; 11; 12; 13; 32; 160]%nat.
Proof.
  unfold is_space. cbv zeta.
  rewrite !orb_true_iff, andb_true_iff, !Nat.leb_le, !Nat.eqb_eq.
  cbn [In]. lia.
Qed.

(** X9: [strip] removes the white-space characters (TAB, LF, VT, FF, CR,
    SPACE, NO-BREAK SPACE) and keeps every other character, in order.  So
    it leaves no white space, leaves exactly the names without white
    space as they are, and stripping twice is stripping once: a primitive
    is the primitive of its own rendering, and two names give the same
    primitive exactly when they differ in white space only. *)
Theorem primitive_of_rendering (name : string) :
  list_ascii_of_string (strip name)
  = List.filter (fun c => negb (is_space c)) (list_ascii_of_string name) /\
  (forall c, is_space c = true
             <-> In (nat_of_ascii c) [9; 10; 11; 12; 13; 32; 160]%nat) /\
  Forall (fun c => is_space c = false) (list_ascii_of_string (strip name)) /\
  (strip name = name
   <-> Forall (fun c => is_space c = false) (list_ascii_of_string name)) /\
  strip (strip name) = strip name /\
  toString (PrimitiveType name) = Return (strip name) /\
  PrimitiveType (strip name) = PrimitiveType name /\
  (forall other, strip other = strip name
                 <-> PrimitiveType other = PrimitiveType name).
Proof.
  assert (E : strip (strip name) = strip name)
    by apply strip_fixed, strip_no_space.
  split; [apply strip_filter|]. split; [apply is_space_codes|].
  split; [apply strip_no_space|]. split.
  { split; [|apply strip_fixed]. intros <-. apply strip_no_space. }
  split; [exact E|]. split; [done|].
  split; [unfold PrimitiveType; by rewrite E|].
  intros other. unfold PrimitiveType. split; [by intros ->|by intros [= ->]].
Qed.

(** ** The registry across [Type.fromDoctrine] *)

Lemma RecordType_fromDoctrineType_shape self type rec typedefs t :
  RecordType_fromDoctrineType self type rec typedefs = Some (Return t) ->
  typedef_shape t = true.
Proof.
  destruct type as [[name| | | | |]|]; simpl; try (intros [= <-]; done).
  destruct (String.eqb name "object"); [|intros [= <-]; done].
  destruct (tags rec) as [all|]; [|discriminate].
  unfold bind. destruct (properties _ _ _ _ _) as [[record|e]|]; try discriminate.
  by intros [= <-].
Qed.

Lemma first_tag_registry fuel rec typedefs (rest : list tag) c typedefs' :
  first_tag fuel rec typedefs rest = Some (c, typedefs') ->
  typedefs' = typedefs \/
  exists key type,
    typedefs' = <[key := type]> typedefs /\ typedef_shape type = true /\
    c = Return Type_any.
Proof.
  induction rest as [|tag rest IH]; cbn [first_tag]; [intros [= <- <-]; by left|].
  destruct (String.eqb (title tag) "typedef").
  { destruct (RecordType_fromDoctrineType _ _ _ _) as [[type|e]|] eqn:E;
      [|intros [= <- <-]; by left|discriminate].
    intros [= <- <-]. right. exists (to_key (tag_name tag)), type.
    split; [done|]. split; [|done]. by eapply RecordType_fromDoctrineType_shape. }
  destruct (String.eqb (title tag) "type").
  { destruct (Type_fromDoctrineType _ _ _ _); [|discriminate].
    intros [= <- <-]. by left. }
  destruct (_ || _).
  { destruct (FunctionType_fromDoctrine _ _ _); [|discriminate].
    intros [= <- <-]. by left. }
  exact IH.
Qed.

(** X10: a call of [Type.fromDoctrine] leaves the registry as it was,
    or writes one entry, a record or the base type, and then returns
    [Type.any]; when it throws, and when no tag is actionable, the registry
    is as it was.  So a registry that holds records and base types only
    keeps doing so. *)
Theorem fromDoctrine_registry fuel (rec : Rec) (typedefs typedefs' : typedefs_t) c :
  Type_fromDoctrine fuel rec typedefs = Some (c, typedefs') ->
  (typedefs' = typedefs \/
   exists key type,
     typedefs' = <[key := type]> typedefs /\ typedef_shape type = true /\
     c = Return Type_any) /\
  (forall e, c = Throw e -> typedefs' = typedefs) /\
  (forall all, tags rec = Some all ->
     Forall (fun tag => actionable (title tag) = false) all ->
     c = Return Type_any /\ typedefs' = typedefs) /\
  (map_Forall (fun _ t => typedef_shape t = true) typedefs ->
   map_Forall (fun _ t => typedef_shape t = true) typedefs').
Proof.
  intros H.
  assert (Hreg : typedefs' = typedefs \/
                 exists key type,
                   typedefs' = <[key := type]> typedefs /\
                   typedef_shape type = true /\ c = Return Type_any).
  { unfold Type_fromDoctrine in H. destruct (tags rec) as [all|].
    - by eapply first_tag_registry.
    - injection H as <- <-. by left. }
  split; [exact Hreg|]. split; [|split].
  - intros e ->. destruct Hreg as [?|(? & ? & _ & _ & ?)]; [done|discriminate].
  - intros all Hall Hnone. unfold Type_fromDoctrine in H. rewrite Hall in H.
    rewrite <- (app_nil_r all), first_tag_skip in H by done.
    by injection H as <- <-.
  - intros Hok. destruct Hreg as [->|(key & type & -> & Hshape & _)]; [done|].
    by apply map_Forall_insert_2.
Qed.

(** ** The function type of [param] and [return] tags *)

Lemma signature_assign
    (self : option doctrine_type -> Rec -> typedefs_t -> M Ty)
    (rec : Rec) (typedefs : typedefs_t) (rest : list tag) :
  forall (ptypes rtypes : list Ty) returnType argumentTypes parameterTypes
         prototype,
    Forall2 (fun tag type => self (tag_type tag) rec typedefs = Some (Return type))
            (param_tags rest) ptypes ->
    Forall2 (fun tag type => self (tag_type tag) rec typedefs = Some (Return type))
            (return_tags rest) rtypes ->
    signature self rec typedefs rest returnType argumentTypes parameterTypes
      prototype
    = Some (Return (TFunction
                      (default returnType (last rtypes))
                      (argumentTypes ++ ptypes)
                      (assign_all parameterTypes (zip (param_keys rest) ptypes))
                      (assigned_prototype (zip (param_keys rest) ptypes)
                                          prototype))).
Proof.
  unfold param_keys.
  induction rest as [|tag rest IH];
    intros ptypes rtypes returnType argumentTypes parameterTypes prototype Hp Hr.
  - inversion Hp; inversion Hr; subst. cbn. by rewrite app_nil_r.
  - cbn [signature]. unfold param_tags, return_tags in Hp, Hr.
    cbn [List.filter] in Hp, Hr.
    destruct (String.eqb (title tag) "return" || String.eqb (title tag) "returns")
      eqn:Ereturn.
    + assert (Eparam : String.eqb (title tag) "param" = false).
      { apply String.eqb_neq. intros E. rewrite E in Ereturn. discriminate. }
      rewrite Eparam in Hp.
      inversion Hr as [|? type ? rtypes' Htag Hrest]; subst.
      rewrite Htag. cbn [bind]. rewrite (IH ptypes rtypes') by done.
      unfold param_tags. cbn [List.filter]. rewrite Eparam.
      do 3 f_equal. rewrite last_cons. by destruct (last rtypes').
    + destruct (String.eqb (title tag) "param") eqn:Eparam.
      * inversion Hp as [|? type ? ptypes' Htag Hrest]; subst.
        rewrite Htag. cbn [bind]. rewrite (IH ptypes' rtypes) by done.
        unfold param_tags. cbn [List.filter]. rewrite Eparam.
        cbn. by rewrite <- app_assoc.
      * rewrite (IH ptypes rtypes) by done.
        unfold param_tags. cbn [List.filter]. by rewrite Eparam.
Qed.

Lemma last_assigned_proto {A} (entries : list (string * A)) (before : option A) :
  last_assigned entries "__proto__" before = before.
Proof.
  revert before. induction entries as [|[k v] entries IH]; intros before; [done|].
  cbn [last_assigned]. rewrite IH.
  destruct (String.eqb_spec k "__proto__") as [->|_]; [done|].
  by rewrite andb_false_l.
Qed.

Lemma last_assigned_none {A} (entries : list (string * A)) (k : string)
    (before : option A) :
  k ∉ entries.*1 -> last_assigned entries k before = before.
Proof.
  revert before. induction entries as [|[k' v] entries IH]; intros before H; [done|].
  rewrite fmap_cons, not_elem_of_cons in H. destruct H as [Hk H].
  cbn [last_assigned]. rewrite IH by done. cbn [fst] in Hk.
  by destruct (String.eqb_spec k' k) as [->|_].
Qed.

Lemma assigned_prototype_none (entries : list (string * Ty)) (prototype : option Ty) :
  "__proto__" ∉ entries.*1 -> assigned_prototype entries prototype = prototype.
Proof.
  unfold assigned_prototype. revert prototype.
  induction entries as [|[k v] entries IH]; intros prototype H; [done|].
  rewrite fmap_cons, not_elem_of_cons in H. destruct H as [Hk H].
  cbn [foldl]. rewrite IH by done. unfold set_prototype. cbn [fst].
  by destruct (String.eqb_spec k "__proto__") as [->|_].
Qed.

Lemma field_proto (type : Ty) : field type "__proto__" = None.
Proof. by destruct type. Qed.

(** X11: when the first actionable tag is a [param], [return] or
    [returns] tag and the types of these tags translate, [Type.fromDoctrine]
    returns a function type and leaves the registry as it was.  The
    function type has one argument for each [param] tag, in order, and
    [Type.invalid] at every other index; its return type is that of the
    last return tag, or [Type.any] without one.  [getParameter] reads
    [parameterTypes] through its prototype: a name borne by a [param] tag,
    other than [__proto__], gives the type of the last such tag; a [param]
    tag named [__proto__] creates no property and installs its type as
    the prototype, which [getParameter("__proto__")] then returns; without
    such a tag, a name no [param] tag bears gives the member of
    [Object.prototype] of that name ([constructor], [toString], ...) when
    there is one and [Type.any] otherwise. *)
Theorem function_type_of_tags
    (fuel : nat) (rec : Rec) (typedefs : typedefs_t)
    (all before after : list tag) (tag : tag) (ptypes rtypes : list Ty) :
  tags rec = Some all ->
  all = (before ++ tag :: after)%list ->
  Forall (fun tag => actionable (title tag) = false) before ->
  String.eqb (title tag) "return" || String.eqb (title tag) "returns"
    || String.eqb (title tag) "param" = true ->
  Forall2 (fun tag type =>
             Type_fromDoctrineType fuel (tag_type tag) rec typedefs
             = Some (Return type)) (param_tags all) ptypes ->
  Forall2 (fun tag type =>
             Type_fromDoctrineType fuel (tag_type tag) rec typedefs
             = Some (Return type)) (return_tags all) rtypes ->
  exists f,
    Type_fromDoctrine fuel rec typedefs = Some (Return f, typedefs) /\
    getReturn f = default Type_any (last rtypes) /\
    getArgumentCount f = Some (length (param_tags all)) /\
    (forall i : nat, getArgument f (Z.of_nat i) = default Type_invalid (ptypes !! i)) /\
    (forall i : Z, (i < 0 \/ Z.of_nat (length ptypes) <= i)%Z ->
                   getArgument f i = Type_invalid) /\
    (forall name,
       getParameter f name
       = match last_assigned (zip (param_keys all) ptypes) name None with
         | Some type => VType type
         | None =>
             match inherited (assigned_prototype (zip (param_keys all) ptypes) None)
                             name with
             | Some v => if truthy v then v else VType Type_any
             | None => VType Type_any
             end
         end) /\
    (forall name type,
       last_assigned (zip (param_keys all) ptypes) name None = Some type ->
       getParameter f name = VType type) /\
    (forall type,
       assigned_prototype (zip (param_keys all) ptypes) None = Some type ->
       getParameter f "__proto__" = VType type) /\
    ("__proto__" ∉ param_keys all ->
     forall name,
       name ∉ param_keys all ->
       getParameter f name
       = if mem name Object_prototype then VMember None name else VType Type_any).
Proof.
  intros Htags Hall Hbefore Htitle Hp Hr.
  eexists. split.
  { unfold Type_fromDoctrine. rewrite Htags, Hall.
    rewrite first_tag_skip by done. cbn [first_tag].
    assert (String.eqb (title tag) "typedef" = false) as ->.
    { apply String.eqb_neq. intros E. rewrite E in Htitle. discriminate. }
    assert (String.eqb (title tag) "type" = false) as ->.
    { apply String.eqb_neq. intros E. rewrite E in Htitle. discriminate. }
    rewrite Htitle. unfold FunctionType_fromDoctrine. rewrite Htags.
    rewrite <- Hall. by rewrite (signature_assign _ _ _ _ ptypes rtypes). }
  split; [done|]. split.
  { cbn. f_equal. symmetry. by eapply Forall2_length. }
  split; [|split].
  - intros i. cbn. unfold at_index.
    destruct (Z.ltb_spec (Z.of_nat i) 0); [lia|]. by rewrite Nat2Z.id.
  - intros i Hi. cbn. unfold at_index.
    destruct (Z.ltb_spec i 0); [done|].
    rewrite lookup_ge_None_2; [done|lia].
  - assert (Hget : forall name,
              getParameter
                (TFunction (default Type_any (last rtypes)) ([] ++ ptypes)
                   (assign_all [] (zip (param_keys all) ptypes))
                   (assigned_prototype (zip (param_keys all) ptypes) None)) name
              = match last_assigned (zip (param_keys all) ptypes) name None with
                | Some type => VType type
                | None =>
                    match inherited
                            (assigned_prototype (zip (param_keys all) ptypes) None)
                            name with
                    | Some v => if truthy v then v else VType Type_any
                    | None => VType Type_any
                    end
                end).
    { intros name. cbn [getParameter]. unfold get. rewrite own_assign_all.
      cbn [JSObject.own]. by destruct (last_assigned _ _ _). }
    assert (Hlength : length (param_keys all) = length ptypes).
    { unfold param_keys. rewrite length_fmap. by eapply Forall2_length. }
    split; [exact Hget|]. split; [|split].
    + intros name type H. by rewrite Hget, H.
    + intros type H. rewrite Hget, last_assigned_proto, H.
      unfold inherited. by rewrite field_proto.
    + intros Hproto name Hname. rewrite Hget.
      rewrite assigned_prototype_none by (by rewrite fst_zip by lia).
      rewrite last_assigned_none by (by rewrite fst_zip by lia).
      unfold inherited. by destruct (mem name Object_prototype).
Qed.

(** ** The property names of a translated record *)

Lemma has_own_keys {A} (o : JSObject.t A) (k : string) :
  JSObject.has_own o k = true <-> k ∈ JSObject.keys o.
Proof.
  unfold JSObject.has_own, JSObject.keys.
  induction o as [|[k' v] o IH]; simpl.
  - split; [discriminate|]. intros H. by apply elem_of_nil in H.
  - rewrite elem_of_cons. destruct (String.eqb_spec k' k) as [->|Hne].
    + split; auto.
    + rewrite IH. split; [auto|]. intros [?|?]; [congruence|done].
Qed.

Lemma keys_replace {A} (o : JSObject.t A) (k : string) (v : A) :
  JSObject.keys (JSObject.replace o k v) = JSObject.keys o.
Proof.
  unfold JSObject.keys. induction o as [|[k' v'] o IH]; [done|].
  cbn [JSObject.replace]. destruct (String.eqb k' k); [done|].
  rewrite !fmap_cons. by f_equal.
Qed.

Lemma keys_add {A} (o : JSObject.t A) (k : string) (v : A) :
  JSObject.keys (JSObject.add o k v) ≡ₚ k :: JSObject.keys o.
Proof.
  unfold JSObject.keys. induction o as [|[k' v'] o IH]; [done|].
  assert (Hswap : (k' :: (JSObject.add o k v).*1) ≡ₚ k :: k' :: o.*1).
  { rewrite IH. apply Permutation_swap. }
  cbn [JSObject.add].
  destruct (JSObject.array_index k) as [n|];
    [destruct (JSObject.array_index k') as [n'|]; [destruct (n <? n')%N|]|];
    rewrite ?fmap_cons; done.
Qed.

(** The keys after [o[k] = v]. *)
Lemma keys_set {A} (o : JSObject.t A) (k : string) (v : A) :
  NoDup (JSObject.keys o) ->
  NoDup (JSObject.keys (JSObject.set o k v)) /\
  (forall k', k' ∈ JSObject.keys (JSObject.set o k v) <->
              k' ∈ JSObject.keys o \/ (k' = k /\ k <> "__proto__")).
Proof.
  intros Hnodup. unfold JSObject.set.
  destruct (String.eqb_spec k "__proto__") as [->|Hk].
  { split; [done|]. intros k'. split; [auto|]. by intros [?|[_ ?]]. }
  destruct (JSObject.has_own o k) eqn:E.
  - rewrite keys_replace. split; [done|].
    apply has_own_keys in E. intros k'. split; [auto|]. by intros [?|[-> _]].
  - assert (Hfresh : k ∉ JSObject.keys o).
    { intros H%has_own_keys. congruence. }
    split.
    + rewrite keys_add. by constructor.
    + intros k'. rewrite keys_add, elem_of_cons. split.
      * intros [->|?]; auto.
      * intros [?|[-> _]]; auto.
Qed.

Lemma properties_names
    (self : option doctrine_type -> Rec -> typedefs_t -> M Ty)
    (rec : Rec) (typedefs : typedefs_t) (rest : list tag) :
  forall record result,
    properties self rec typedefs rest record = Some (Return result) ->
    NoDup (JSObject.keys record) ->
    NoDup (JSObject.keys result) /\
    (forall k, k ∈ JSObject.keys result <->
               k ∈ JSObject.keys record \/
               (k ∈ property_keys rest /\ k <> "__proto__")).
Proof.
  unfold property_keys, property_tags.
  induction rest as [|tag rest IH]; intros record result; cbn [properties].
  - intros [= <-] Hnodup. split; [done|]. intros k. split; [auto|].
    intros [?|[H _]]; [done|]. by apply elem_of_nil in H.
  - cbn [List.filter]. destruct (String.eqb (title tag) "property").
    + unfold bind. destruct (self _ _ _) as [[type|e]|]; try discriminate.
      intros H Hnodup.
      destruct (keys_set record (to_key (tag_name tag)) type Hnodup) as [Hn Hk].
      destruct (IH _ _ H Hn) as [Hn' Hk']. split; [done|].
      intros k. rewrite Hk', Hk. cbn [fmap list_fmap]. rewrite elem_of_cons.
      split.
      * intros [[?|[-> ?]]|[? ?]]; auto.
      * intros [?|[[->|?] ?]]; auto.
    + apply IH.
Qed.

(** X12: the record that [RecordType.fromDoctrineType] makes has each
    property name once; its names are the names of the property tags,
    [__proto__] left out. *)
Theorem record_of_property_tags
    (self : option doctrine_type -> Rec -> typedefs_t -> M Ty)
    (rec : Rec) (typedefs : typedefs_t) (all : list tag) (t : Ty) :
  tags rec = Some all ->
  RecordType_fromDoctrineType self (Some (DNameExpression "object")) rec typedefs
    = Some (Return t) ->
  NoDup (getPropertyNames t) /\
  (forall k, k ∈ getPropertyNames t <-> k ∈ property_keys all /\ k <> "__proto__").
Proof.
  intros Htags. cbn [RecordType_fromDoctrineType].
  change (String.eqb "object" "object") with true. cbv iota. rewrite Htags.
  unfold bind.
  destruct (properties self rec typedefs all []) as [[record|e]|] eqn:E;
    try discriminate.
  intros [= <-]. cbn [RecordType getPropertyNames].
  destruct (properties_names self rec typedefs all [] record E) as [Hn Hk].
  { constructor. }
  split; [done|]. intros k. rewrite Hk. split; [|auto].
  intros [H|?]; [|done]. by apply elem_of_nil in H.
Qed.

(** ** Translation that completes *)

Lemma mapM_returns {A B} (f : nat -> A -> M B) (l : list A) :
  (forall n m x c, n <= m -> f n x = Some c -> f m x = Some c) ->
  Forall (fun x => exists n y, f n x = Some (Return y)) l ->
  exists n ys, mapM (f n) l = Some (Return ys).
Proof.
  intros Hfuel. induction 1 as [|x l (n1 & y & H1) _ (n2 & ys & H2)];
    [by exists 0, []|].
  exists (n1 `max` n2), (y :: ys). cbn [mapM].
  rewrite (Hfuel n1 (n1 `max` n2) x _ ltac:(lia) H1). cbn [bind].
  assert (H2' : mapM (f (n1 `max` n2)) l = Some (Return ys)).
  { revert H2. apply mapM_extends. intros z c. apply Hfuel. lia. }
  by rewrite H2'.
Qed.

Lemma simple_nodes (P : doctrine_type -> Prop) (l : list doctrine_type) :
  Forall (fun node => simple_node node = true -> P node) l ->
  (fix all (l : list doctrine_type) : bool :=
     match l with
     | [] => true
     | x :: rest => simple_node x && all rest
     end) l = true ->
  Forall P l.
Proof.
  induction 1 as [|x l Hx _ IH]; [constructor|].
  intros [H1 H2]%andb_true_iff. constructor; auto.
Qed.

(** X13: a type expression made of names other than [object], the
    undefined literal, unions, record expressions and function types is
    translated to a type, whatever the tags and the registry:
    [Type.fromDoctrineType] completes on it and throws nothing. *)
Theorem translation_completes (node : doctrine_type) (rec : Rec) (typedefs : typedefs_t) :
  simple_node node = true ->
  exists fuel t, Type_fromDoctrineType fuel (Some node) rec typedefs = Some (Return t).
Proof.
  intros Hsimple. revert rec.
  induction node as [name| |elements IH|fields|params result IHp IHr|other]
    using doctrine_type_ind; intros rec.
  - exists 1. cbn in *. destruct (String.eqb name "object"); [discriminate|].
    by eexists.
  - by exists 1, Type_undefined.
  - destruct (mapM_returns
                (fun n element => Type_fromDoctrineType n (Some element) no_tags typedefs)
                elements) as (n & union & H).
    + intros n m x c. apply Type_fromDoctrineType_fuel.
    + cbn [simple_node] in Hsimple.
      eapply Forall_impl; [apply (simple_nodes _ _ IH Hsimple)|].
      intros x Hx. apply Hx.
    + exists (S n), (UnionType union). rewrite Type_fromDoctrineType_S.
      unfold Type_fromDoctrineType_body, UnionType_fromDoctrineType. by rewrite H.
  - by exists 1, Type_invalid.
  - cbn [simple_node] in Hsimple. apply andb_true_iff in Hsimple as [Hparams Hresult].
    destruct (mapM_returns
                (fun n param => Type_fromDoctrineType n (Some param) rec typedefs)
                params) as (n1 & paramTypes & H1).
    + intros n m x c. apply Type_fromDoctrineType_fuel.
    + eapply Forall_impl; [apply (simple_nodes _ _ IHp Hparams)|].
      intros x Hx. apply Hx.
    + assert (Hret : exists n2 returnType,
                 match result with
                 | Some r => Type_fromDoctrineType n2 (Some r) rec typedefs
                 | None => ret Type_any
                 end = Some (Return returnType)).
      { destruct result as [r|]; [|by exists 0, Type_any].
        by apply (IHr r eq_refl). }
      destruct Hret as (n2 & returnType & H2).
      exists (S (n1 `max` n2)), (FunctionType returnType paramTypes []).
      rewrite Type_fromDoctrineType_S.
      unfold Type_fromDoctrineType_body, FunctionType_fromDoctrineType.
      assert (H2' : match result with
                    | Some r => Type_fromDoctrineType (n1 `max` n2) (Some r) rec typedefs
                    | None => ret Type_any
                    end = Some (Return returnType)).
      { destruct result; [|done].
        revert H2. apply Type_fromDoctrineType_fuel. lia. }
      rewrite H2'. cbn [bind].
      assert (H1' : mapM (fun param =>
                            Type_fromDoctrineType (n1 `max` n2) (Some param) rec typedefs)
                      params = Some (Return paramTypes)).
      { revert H1. apply mapM_extends. intros z c.
        apply Type_fromDoctrineType_fuel. lia. }
      by rewrite H1'.
  - discriminate.
Qed.

(** ** Rendering what was translated *)

Lemma toString_union (union : list Ty) (parts : list string) :
  Forall2 (fun type s => toString type = Return s) union parts ->
  toString (TUnion union) = Return (join "|" parts).
Proof.
  intros H. cbn [toString].
  assert (E : (fix map (l : list Ty) : completion (list string) :=
                 match l with
                 | [] => Return []
                 | type :: rest =>
                     let+ s := toString type in
                     let+ ss := map rest in Return (s :: ss)
                 end) union = Return parts).
  { induction H as [|type s union parts Hs _ IH]; [done|].
    rewrite Hs. cbn [cbind]. by rewrite IH. }
  by rewrite E.
Qed.

Lemma name_rendering (name : string) (rec : Rec) (typedefs : typedefs_t) :
  strip name = name ->
  toString (PrimitiveType_fromDoctrineType (DNameExpression name) rec typedefs)
  = Return name.
Proof.
  intros H. cbn [PrimitiveType_fromDoctrineType].
  destruct (typedefs !! name); [done|]. cbn. by rewrite H.
Qed.

(** X14: a name without white space, other than [object], is translated
    to a type that renders as that name, registered or not; a union of
    such names is translated to a type that renders as the names joined
    by a bar. *)
Theorem rendering_of_names (names : list string) (rec : Rec) (typedefs : typedefs_t) :
  Forall (fun name => strip name = name /\ name <> "object") names ->
  Forall (fun name =>
            exists t,
              Type_fromDoctrineType 1 (Some (DNameExpression name)) rec typedefs
              = Some (Return t) /\
              toString t = Return name) names /\
  exists t,
    Type_fromDoctrineType 2 (Some (DUnionType (DNameExpression <$> names))) rec typedefs
    = Some (Return t) /\
    toString t = Return (join "|" names).
Proof.
  intros H.
  assert (Hname : forall name rec, strip name = name -> name <> "object" ->
            Type_fromDoctrineType 1 (Some (DNameExpression name)) rec typedefs
            = Some (Return (PrimitiveType_fromDoctrineType
                              (DNameExpression name) rec typedefs))).
  { intros name rec' _ Hobject. cbn.
    by destruct (String.eqb_spec name "object"). }
  split.
  - eapply Forall_impl; [exact H|]. intros name [Hs Ho]. eexists.
    split; [by apply Hname|]. by apply name_rendering.
  - exists (UnionType
              ((fun name => PrimitiveType_fromDoctrineType
                              (DNameExpression name) no_tags typedefs) <$> names)).
    split.
    + rewrite Type_fromDoctrineType_S.
      unfold Type_fromDoctrineType_body, UnionType_fromDoctrineType.
      assert (E : mapM (fun element =>
                          Type_fromDoctrineType 1 (Some element) no_tags typedefs)
                    (DNameExpression <$> names)
                  = Some (Return ((fun name =>
                                     PrimitiveType_fromDoctrineType
                                       (DNameExpression name) no_tags typedefs)
                                  <$> names))).
      { induction H as [|name names [Hs Ho] _ IH]; [done|].
        rewrite !fmap_cons. cbn [mapM]. rewrite (Hname name no_tags Hs Ho).
        cbn [bind]. by rewrite IH. }
      by rewrite E.
    + apply toString_union.
      induction H as [|name names [Hs Ho] _ IH]; [constructor|].
      rewrite fmap_cons. constructor; [by apply name_rendering|exact IH].
Qed.

(** ** A typedef and then its name *)

(** X15: after a comment whose first actionable tag is the typedef of
    an [object] under a name other than [object], a comment whose first
    actionable tag is a [type] tag of that name is translated to the alias
    of the registered record under that name, and leaves the registry as
    the typedef made it. *)
Theorem typedef_then_name
    (fuel fuel' : nat) (rec rec' : Rec) (typedefs : typedefs_t)
    (all before after all' before' after' : list tag) (tag tag' : tag)
    (name : string) (types : list Ty) :
  tags rec = Some all ->
  all = (before ++ tag :: after)%list ->
  Forall (fun tag => actionable (title tag) = false) before ->
  title tag = "typedef" ->
  tag_name tag = Some name ->
  name <> "object" ->
  tag_type tag = Some (DNameExpression "object") ->
  Forall2 (fun tag type =>
             Type_fromDoctrineType fuel (tag_type tag) rec typedefs
             = Some (Return type)) (property_tags all) types ->
  tags rec' = Some all' ->
  all' = (before' ++ tag' :: after')%list ->
  Forall (fun tag => actionable (title tag) = false) before' ->
  title tag' = "type" ->
  tag_type tag' = Some (DNameExpression name) ->
  exists (record : JSObject.t Ty) (typedefs' : typedefs_t),
    record = assign_all [] (zip (property_keys all) types) /\
    Type_fromDoctrine fuel rec typedefs = Some (Return Type_any, typedefs') /\
    Type_fromDoctrine (S fuel') rec' typedefs'
    = Some (Return (AliasType name (RecordType record)), typedefs').
Proof.
  intros Htags Hall Hbefore Htitle Hname Hobject Htype Htypes
         Htags' Hall' Hbefore' Htitle' Htype'.
  eexists _, _. split; [reflexivity|]. split.
  - rewrite (first_typedef fuel rec typedefs all before after tag) by done.
    rewrite Htype. cbn [RecordType_fromDoctrineType].
    change (String.eqb "object" "object") with true. cbv iota. rewrite Htags.
    rewrite (properties_assign _ _ _ _ types []) by done. cbn [bind ret].
    by rewrite Hname.
  - unfold Type_fromDoctrine. rewrite Htags', Hall'.
    rewrite first_tag_skip by done. cbn [first_tag]. rewrite Htitle'.
    change (String.eqb "type" "typedef") with false.
    change (String.eqb "type" "type") with true. cbv iota.
    rewrite Htype', Type_fromDoctrineType_S. unfold Type_fromDoctrineType_body.
    destruct (String.eqb_spec name "object") as [?|_]; [done|].
    cbn [PrimitiveType_fromDoctrineType to_key]. by rewrite lookup_insert_eq.
Qed.

(** ** The further properties at concrete instances *)

Lemma comparable_total_witness :
  comparable (UnionType [Type_string; AliasType "Point" Point]) = true /\
  comparable Point = true /\
  (exists v, isOfType_is (UnionType [Type_string; AliasType "Point" Point]) Point
               (Return v)) /\
  (exists v, isSupertypeOf_is (UnionType [Type_string; AliasType "Point" Point]) Point
               (Return v)).
Proof.
  do 2 (split; [reflexivity|]).
  apply comparable_total; reflexivity.
Defined.

Lemma isOfType_converse_witness :
  structural Point = true /\ structural Type_object = true /\
  (isOfType_is Point Type_object (Return true) <->
   isSupertypeOf_is Type_object Point (Return true)).
Proof.
  do 2 (split; [reflexivity|]).
  apply isOfType_converse; reflexivity.
Defined.

Lemma alias_as_other_operand_witness :
  transparent_target Point = true /\
  (isOfType_is Type_string (AliasType "Point" Point) (Return false) <->
   isOfType_is Type_string Point (Return false)).
Proof.
  split; [reflexivity|].
  apply (alias_as_other_operand "Point" Point Type_string (Return false)).
  reflexivity.
Defined.

Lemma reflexive_on_records_witness :
  structural Point = true /\ comparable Point = true /\
  isSupertypeOf_is Point Point (Return true) /\ isOfType_is Point Point (Return true).
Proof.
  do 2 (split; [reflexivity|]).
  apply reflexive_on_records; reflexivity.
Defined.

Lemma union_not_reflexive_witness :
  strip "string" <> strip "number" /\
  isOfType_is (UnionType [Type_string; Type_number])
    (UnionType [Type_string; Type_number]) (Return true) /\
  isSupertypeOf_is (UnionType [Type_string; Type_number])
    (UnionType [Type_string; Type_number]) (Return false).
Proof.
  assert (H : strip "string" <> strip "number") by discriminate.
  split; [exact H|]. apply (union_not_reflexive "string" "number" H).
Defined.

Lemma primitive_and_record_witness :
  instanceOf Type_string KPrimitiveType = true /\
  instanceOf (AliasType "Point" Point) KRecordType = true /\
  isOfType 4 Type_string (AliasType "Point" Point) = Some (Return false) /\
  isSupertypeOf 4 Type_string (AliasType "Point" Point) = Some (Return false) /\
  isOfType 4 (AliasType "Point" Point) Type_string = Some (Return false) /\
  isSupertypeOf 4 (AliasType "Point" Point) Type_string = Some (Return false).
Proof.
  do 2 (split; [reflexivity|]).
  apply (primitive_and_record Type_string (AliasType "Point" Point) 0); reflexivity.
Defined.

Lemma record_of_primitives_isSupertypeOf_witness :
  primitive_fields [("x", Type_number)] = true /\
  primitive_fields [("x", Type_number); ("y", Type_number)] = true /\
  exists v,
    isSupertypeOf 3 (RecordType [("x", Type_number)]) Point = Some (Return v) /\
    (v = true <->
     forall k p, JSObject.own [("x", Type_number)] k = Some (TPrimitive p) ->
                 JSObject.own [("x", Type_number); ("y", Type_number)] k
                 = Some (TPrimitive p)).
Proof.
  do 2 (split; [reflexivity|]).
  apply (record_of_primitives_isSupertypeOf
           [("x", Type_number)] [("x", Type_number); ("y", Type_number)] 0);
    reflexivity.
Defined.

Lemma fromDoctrine_registry_witness :
  Type_fromDoctrine 1 Pair_rec ∅
    = Some (Return Type_any, <["Pair" := RecordType [("a", Type_number)]]> ∅) /\
  (map_Forall (fun _ t => typedef_shape t = true) (∅ : typedefs_t) ->
   map_Forall (fun _ t => typedef_shape t = true)
     (<["Pair" := RecordType [("a", Type_number)]]> ∅ : typedefs_t)).
Proof.
  assert (H : Type_fromDoctrine 1 Pair_rec ∅
              = Some (Return Type_any, <["Pair" := RecordType [("a", Type_number)]]> ∅))
    by reflexivity.
  split; [exact H|].
  apply (fromDoctrine_registry 1 Pair_rec ∅ _ _ H).
Defined.

Lemma function_type_of_tags_witness :
  tags signature_rec = Some signature_tags /\
  exists f,
    Type_fromDoctrine 1 signature_rec ∅ = Some (Return f, ∅) /\
    getReturn f = Type_boolean /\
    getArgumentCount f = Some 2 /\
    getParameter f "b" = VType Type_string /\
    getParameter f "constructor" = VMember None "constructor" /\
    getParameter f "c" = VType Type_any.
Proof.
  split; [reflexivity|].
  assert (Hkeys : forall name,
             name <> "a" -> name <> "b" -> name ∉ param_keys signature_tags).
  { intros name Ha Hb H%list_elem_of_In. simpl in H.
    destruct H as [H|[H|H]]; [by apply Ha|by apply Hb|exact H]. }
  destruct (function_type_of_tags 1 signature_rec ∅ signature_tags []
              [Tag "param" (Some "b") (Some (DNameExpression "string"));
               Tag "returns" None (Some (DNameExpression "boolean"))]
              (Tag "param" (Some "a") (Some (DNameExpression "number")))
              [Type_number; Type_string] [Type_boolean]
              eq_refl eq_refl (List.Forall_nil _) eq_refl)
    as (f & Hcall & Hreturn & Hcount & _ & _ & _ & Hparam & _ & Hother).
  - repeat constructor.
  - repeat constructor.
  - exists f. split; [exact Hcall|]. split; [exact Hreturn|].
    split; [exact Hcount|]. split; [exact (Hparam "b" Type_string eq_refl)|].
    split.
    + exact (Hother (Hkeys "__proto__" ltac:(discriminate) ltac:(discriminate))
               "constructor"
               (Hkeys "constructor" ltac:(discriminate) ltac:(discriminate))).
    + exact (Hother (Hkeys "__proto__" ltac:(discriminate) ltac:(discriminate))
               "c" (Hkeys "c" ltac:(discriminate) ltac:(discriminate))).
Defined.

Lemma record_of_property_tags_witness :
  tags Pair_rec = Some [Pair_typedef; Pair_property] /\
  RecordType_fromDoctrineType (Type_fromDoctrineType 1)
    (Some (DNameExpression "object")) Pair_rec ∅
    = Some (Return (RecordType [("a", Type_number)])) /\
  NoDup (getPropertyNames (RecordType [("a", Type_number)])).
Proof.
  assert (H : RecordType_fromDoctrineType (Type_fromDoctrineType 1)
                (Some (DNameExpression "object")) Pair_rec ∅
              = Some (Return (RecordType [("a", Type_number)]))) by reflexivity.
  split; [reflexivity|]. split; [exact H|].
  apply (record_of_property_tags (Type_fromDoctrineType 1) Pair_rec ∅
           [Pair_typedef; Pair_property] _ eq_refl H).
Defined.

Lemma translation_completes_witness :
  simple_node (DUnionType [DNameExpression "string"; DUndefinedLiteral]) = true /\
  exists fuel t,
    Type_fromDoctrineType fuel
      (Some (DUnionType [DNameExpression "string"; DUndefinedLiteral])) no_tags ∅
    = Some (Return t).
Proof.
  split; [reflexivity|].
  apply translation_completes. reflexivity.
Defined.

Lemma rendering_of_names_witness :
  Forall (fun name => strip name = name /\ name <> "object") ["string"; "Point"] /\
  exists t,
    Type_fromDoctrineType 2
      (Some (DUnionType (DNameExpression <$> ["string"; "Point"]))) no_tags
      {["Point" := Point]}
    = Some (Return t) /\
    toString t = Return "string|Point".
Proof.
  assert (H : Forall (fun name => strip name = name /\ name <> "object")
                ["string"; "Point"]).
  { repeat constructor; discriminate. }
  split; [exact H|].
  apply (rendering_of_names ["string"; "Point"] no_tags {["Point" := Point]} H).
Defined.

Lemma typedef_then_name_witness :
  tags Pair_rec = Some [Pair_typedef; Pair_property] /\
  tags Pair_use_rec = Some [Pair_use] /\
  exists (record : JSObject.t Ty) (typedefs' : typedefs_t),
    record = [("a", Type_number)] /\
    Type_fromDoctrine 1 Pair_rec ∅ = Some (Return Type_any, typedefs') /\
    Type_fromDoctrine 1 Pair_use_rec typedefs'
    = Some (Return (AliasType "Pair" (RecordType record)), typedefs').
Proof.
  do 2 (split; [reflexivity|]).
  assert (Hobject : "Pair" <> "object") by discriminate.
  assert (Htypes : Forall2 (fun tag type =>
                              Type_fromDoctrineType 1 (tag_type tag) Pair_rec ∅
                              = Some (Return type))
                     (property_tags [Pair_typedef; Pair_property]) [Type_number]).
  { repeat constructor. }
  destruct (typedef_then_name 1 0 Pair_rec Pair_use_rec ∅
              [Pair_typedef; Pair_property] [] [Pair_property]
              [Pair_use] [] [] Pair_typedef Pair_use "Pair" [Type_number]
              eq_refl eq_refl (List.Forall_nil _) eq_refl eq_refl Hobject eq_refl
              Htypes
              eq_refl eq_refl (List.Forall_nil _) eq_refl eq_refl)
    as (record & typedefs' & Hrecord & Hdeclare & Huse).
  exists record, typedefs'. split; [exact Hrecord|]. split; [exact Hdeclare|exact Huse].
Defined.
